(** * Quiz buzzer server: session-state engine

    A shallow embedding of the socket server of the quiz repository
    ([src/backend/server.ts], and its bundled twin [src/server.js]):
    the room registry, the connection directory, team assignment, the
    buzzer handlers and the periodic clean-up.

    Conventions of the embedding.
    - JavaScript numbers that the program uses as integers ([teamCount],
      [team], timestamps in milliseconds) are [Z].
    - [rooms] is a [Map] whose iteration order never influences a result:
      it is a [gmap].  [players] (the connection directory) is iterated in
      insertion order by [delete-room], so it is an insertion-ordered
      association list with the semantics of [Map.set]/[Map.delete].
    - [Player] objects are shared between a room's [players] array and the
      directory entries, and [join-room] mutates them in place: they live
      in a store ([heap]) and are referred to by location.
    - [Date.now()] and [Math.random()] are inputs of the commands, and so
      is the number of arguments the engine accepts in a call, which
      [join-room] meets in [Math.min(...teamCounts)]. *)

From stdpp Require Import gmap strings list fin_maps.
From Stdlib Require Import ZArith Ascii String.

Local Open Scope Z_scope.

(** ** Data model *)

Module BuzzerEvent.
Record t : Type := mk {
  playerId : string;
  playerName : string;
  team : Z;
  timestamp : Z
}.
End BuzzerEvent.

Module Player.
Record t : Type := mk {
  id : string;
  name : string;
  team : Z;
  isHost : bool;
  socketId : string
}.

(** [player.socketId = socket.id] *)
Definition set_socketId (s : string) (p : t) : t :=
  mk (id p) (name p) (team p) (isHost p) s.
End Player.

(** A location of the player store. *)
Definition ref : Type := nat.

Module Room.
Record t : Type := mk {
  code : string;
  teamCount : Z;
  hostName : string;
  players : list ref;
  buzzerPressed : bool;
  firstBuzzer : option BuzzerEvent.t;
  buzzerOrder : list BuzzerEvent.t;
  createdAt : Z
}.

(** [new Room(code, teamCount, hostName)]; [now] is [new Date()]. *)
Definition new (code : string) (teamCount : Z) (hostName : string) (now : Z) : t :=
  mk code teamCount hostName [] false None [] now.

(** [room.players.push(player)] *)
Definition push_player (l : ref) (r : t) : t :=
  mk (code r) (teamCount r) (hostName r) (players r ++ [l])
     (buzzerPressed r) (firstBuzzer r) (buzzerOrder r) (createdAt r).

(** The three assignments of the accepted press. *)
Definition press (ev : BuzzerEvent.t) (r : t) : t :=
  mk (code r) (teamCount r) (hostName r) (players r)
     true (Some ev) (buzzerOrder r ++ [ev]) (createdAt r).

(** The three assignments of the reset. *)
Definition reset (r : t) : t :=
  mk (code r) (teamCount r) (hostName r) (players r)
     false None [] (createdAt r).
End Room.

(** An entry of the connection directory: [{ player, roomCode }]. *)
Record PlayerData : Type := mkPlayerData {
  player : ref;
  roomCode : string
}.

Record State : Type := mkState {
  rooms : gmap string Room.t;
  players : list (string * PlayerData);
  heap : list Player.t
}.

Definition initial : State := mkState ∅ [] [].

Definition with_rooms (rs : gmap string Room.t) (st : State) : State :=
  mkState rs (players st) (heap st).
Definition with_players (d : list (string * PlayerData)) (st : State) : State :=
  mkState (rooms st) d (heap st).

(** ** The insertion-ordered [Map] of the directory *)

Section OrderedMap.
Context {V : Type}.

Fixpoint map_get (k : string) (m : list (string * V)) : option V :=
  match m with
  | [] => None
  | (k', v) :: rest => if bool_decide (k' = k) then Some v else map_get k rest
  end.

(** [Map.set]: an existing key keeps its position. *)
Fixpoint map_set (k : string) (v : V) (m : list (string * V)) : list (string * V) :=
  match m with
  | [] => [(k, v)]
  | (k', v') :: rest =>
      if bool_decide (k' = k) then (k, v) :: rest else (k', v') :: map_set k v rest
  end.

Fixpoint map_delete (k : string) (m : list (string * V)) : list (string * V) :=
  match m with
  | [] => []
  | (k', v') :: rest =>
      if bool_decide (k' = k) then map_delete k rest else (k', v') :: map_delete k rest
  end.
End OrderedMap.

(** ** Room codes *)

(** [Math.random().toString(36)] prints ["0"] for zero and otherwise ["0."]
    followed by the base-36 digits of the fraction.  The draw is represented
    by that digit sequence; a digit is a number below 36. *)
Definition rendering : Type := list nat.

Definition base36 (r : rendering) : Prop := Forall (λ d, (d < 36)%nat) r.

Definition digit36 (d : nat) : ascii :=
  if (d <? 10)%nat then ascii_of_nat (48 + d) else ascii_of_nat (87 + d).

Definition toString36 (r : rendering) : string :=
  match r with
  | [] => "0"
  | _ => String "0" (String "." (string_of_list_ascii (map digit36 r)))
  end.

Definition upper_ascii (c : ascii) : ascii :=
  let n := nat_of_ascii c in
  if ((97 <=? n) && (n <=? 122))%nat then ascii_of_nat (n - 32) else c.

Fixpoint toUpperCase (s : string) : string :=
  match s with
  | EmptyString => EmptyString
  | String c s' => String (upper_ascii c) (toUpperCase s')
  end.

(** [Math.random().toString(36).substring(2, 8).toUpperCase()];
    [substring(2, 8)] is the at most six characters from index 2. *)
Definition generateRoomCode (r : rendering) : string :=
  toUpperCase (substring 2 6 (toString36 r)).

(** The characters [0-9A-Z]. *)
Definition code_char (c : ascii) : bool :=
  let n := nat_of_ascii c in
  (((48 <=? n) && (n <=? 57)) || ((65 <=? n) && (n <=? 90)))%nat.

Fixpoint string_forall (f : ascii → bool) (s : string) : bool :=
  match s with
  | EmptyString => true
  | String c s' => f c && string_forall f s'
  end.

(** [createRoom]: the first draw is taken, and another one as long as the
    code is taken.  The draws are supplied as a list; [None] says that the
    loop was still running when the supply ended. *)
Fixpoint fresh_code (rs : gmap string Room.t) (draws : list rendering) : option string :=
  match draws with
  | [] => None
  | r :: rest =>
      let roomCode := generateRoomCode r in
      match rs !! roomCode with
      | Some _ => fresh_code rs rest
      | None => Some roomCode
      end
  end.

Definition createRoom (teamCount : Z) (hostName : string) (now : Z)
    (draws : list rendering) (st : State) : option (Room.t * State) :=
  match fresh_code (rooms st) draws with
  | None => None
  | Some roomCode =>
      let room := Room.new roomCode teamCount hostName now in
      Some (room, with_rooms (<[roomCode := room]> (rooms st)) st)
  end.

(** ** Team assignment *)

(** The [Player] objects of [room.players], in join order. *)
Definition room_players (h : list Player.t) (room : Room.t) : list Player.t :=
  omap (λ l : ref, h !! l) (Room.players room).

(** The body of the [forEach]: [teamCounts[player.team - 1]++] under its guard. *)
Definition count_player (teamCount : Z) (teamCounts : list Z) (p : Player.t) : list Z :=
  if bool_decide (Player.team p > 0) && bool_decide (Player.team p <= teamCount) then
    let i := Z.to_nat (Player.team p - 1) in
    match teamCounts !! i with
    | Some c => <[i := c + 1]> teamCounts
    | None => teamCounts
    end
  else teamCounts.

(** [Math.min(...xs)]; [None] is [Infinity], the minimum of no argument. *)
Fixpoint Math_min (xs : list Z) : option Z :=
  match xs with
  | [] => None
  | x :: rest =>
      match Math_min rest with
      | None => Some x
      | Some m => Some (Z.min x m)
      end
  end.

(** [xs.indexOf(x)], counting from [i]; [-1] when [x] does not occur. *)
Fixpoint indexOf_from (i : Z) (x : Z) (xs : list Z) : Z :=
  match xs with
  | [] => -1
  | y :: rest => if bool_decide (y = x) then i else indexOf_from (i + 1) x rest
  end.

Definition indexOf (x : Z) (xs : list Z) : Z := indexOf_from 0 x xs.

Definition team_counts (h : list Player.t) (room : Room.t) : list Z :=
  foldl (count_player (Room.teamCount room))
        (replicate (Z.to_nat (Room.teamCount room)) 0)
        (room_players h room).

(** The largest length of an array: [Array(n)] throws a [RangeError] for
    an [n] that is negative or above it. *)
Definition maxArrayLength : Z := 2 ^ 32 - 1.

(** [assignPlayerToTeam(room)]; [None] says that it throws a [RangeError].
    It does at [Array(room.teamCount)] when the team count is no array
    length, and at [Math.min(...teamCounts)] when the array has more
    elements than the engine accepts arguments in that call:
    [maxArguments], which is not a constant of the language (on V8 it
    depends on the stack that is left). *)
Definition assignPlayerToTeam (maxArguments : N) (h : list Player.t) (room : Room.t)
    : option Z :=
  if bool_decide (Room.teamCount room < 0)
     || bool_decide (maxArrayLength < Room.teamCount room)
  then None
  else
    let teamCounts := team_counts h room in
    if bool_decide (maxArguments < N.of_nat (List.length teamCounts))%N then None
    else
      let teamIndex :=
        match Math_min teamCounts with
        | None => -1
        | Some minCount => indexOf minCount teamCounts
        end in
      Some (teamIndex + 1).

(** The message of the [RangeError] that [assignPlayerToTeam] throws. *)
Definition range_error (room : Room.t) : string :=
  if bool_decide (Room.teamCount room < 0)
     || bool_decide (maxArrayLength < Room.teamCount room)
  then "RangeError: Invalid array length"
  else "RangeError: Maximum call stack size exceeded".

(** ** Messages sent by the handlers *)

(** The room as it is serialised in a [room-state] message: its fields and
    the players it refers to. *)
Record RoomSnapshot : Type := mkSnapshot {
  snap_room : Room.t;
  snap_players : list Player.t
}.

Definition snapshot (h : list Player.t) (room : Room.t) : RoomSnapshot :=
  mkSnapshot room (room_players h room).

Inductive event : Type :=
  | room_state (s : RoomSnapshot)
  | player_joined (p : Player.t)
  | buzzer_pressed (e : BuzzerEvent.t)
  | room_deleted
  | error (msg : string).

(** The argument of an acknowledgement callback. *)
Inductive response : Type :=
  | created (roomCode : string)
  | found (s : RoomSnapshot)
  | failure (msg : string).

Inductive emit : Type :=
  | to_socket (sid : string) (e : event)
  | to_room (roomCode : string) (e : event)
  | ack (sid : string) (r : response).

(** What running a handler gives: the new state and the messages, or an
    exception that leaves the handler, or a code loop that outlived the
    supplied draws. *)
Inductive outcome : Type :=
  | Done (st : State) (out : list emit)
  | Threw (err : string)
  | Starved.

(** The two servers of the repository: [src/backend/server.ts] and
    [src/server.js].  Their handlers differ in [reset-buzzer] on an unknown
    room and in the order of the two messages of an accepted press. *)
Inductive build : Type := Backend | Bundled.

(** ** Handlers *)

(** [room.players.find(pred)]: the first player satisfying [pred], with
    its location. *)
Fixpoint find_player (pred : Player.t → bool) (h : list Player.t) (refs : list ref)
    : option (ref * Player.t) :=
  match refs with
  | [] => None
  | l :: rest =>
      match h !! l with
      | Some p => if pred p then Some (l, p) else find_player pred h rest
      | None => find_player pred h rest
      end
  end.

(** [create-room].  [createRoom] has no throwing path, so the [catch] of
    the handler, which would acknowledge a failure, is never entered. *)
Definition on_create_room (sid : string) (teamCount : Z) (hostName : string)
    (now : Z) (draws : list rendering) (st : State) : outcome :=
  match createRoom teamCount hostName now draws st with
  | Some (room, st') => Done st' [ack sid (created (Room.code room))]
  | None => Starved
  end.

Definition on_join_room (sid code playerName : string) (isHost : bool)
    (maxArguments : N) (st : State) : outcome :=
  match rooms st !! code with
  | None => Done st [to_socket sid (error "Room not found")]
  | Some room =>
      match find_player (λ p, bool_decide (Player.name p = playerName))
                        (heap st) (Room.players room) with
      | None =>
          match assignPlayerToTeam maxArguments (heap st) room with
          | None => Threw (range_error room)
          | Some team =>
              let p := Player.mk sid playerName team
                         (isHost || bool_decide (List.length (Room.players room) = 0%nat)) sid in
              let l := List.length (heap st) in
              let room' := Room.push_player l room in
              let h' := heap st ++ [p] in
              Done (mkState (<[code := room']> (rooms st))
                            (map_set sid (mkPlayerData l code) (players st))
                            h')
                   [to_socket sid (player_joined p);
                    to_room code (room_state (snapshot h' room'))]
          end
      | Some (l, p) =>
          let p' := Player.set_socketId sid p in
          let h' := <[l := p']> (heap st) in
          Done (mkState (rooms st)
                        (map_set sid (mkPlayerData l code) (players st))
                        h')
               [to_socket sid (player_joined p');
                to_room code (room_state (snapshot h' room))]
      end
  end.

Definition on_press_buzzer (b : build) (code playerId : string) (now : Z)
    (st : State) : outcome :=
  match rooms st !! code with
  | None => Done st []
  | Some room =>
      if Room.buzzerPressed room then Done st []
      else
        match find_player (λ p, bool_decide (Player.id p = playerId))
                          (heap st) (Room.players room) with
        | None => Done st []
        | Some (_, p) =>
            let buzzerEvent :=
              BuzzerEvent.mk (Player.id p) (Player.name p) (Player.team p) now in
            let room' := Room.press buzzerEvent room in
            let pressed := to_room code (buzzer_pressed buzzerEvent) in
            let state := to_room code (room_state (snapshot (heap st) room')) in
            Done (with_rooms (<[code := room']> (rooms st)) st)
                 match b with
                 | Backend => [pressed; state]
                 | Bundled => [state; pressed]
                 end
        end
  end.

(** [playerData?.player.isHost] for the entry of connection [sid]. *)
Definition is_host (sid : string) (st : State) : bool :=
  match map_get sid (players st) with
  | None => false
  | Some d =>
      match heap st !! player d with
      | Some p => Player.isHost p
      | None => false
      end
  end.

Definition on_reset_buzzer (b : build) (sid code : string) (st : State) : outcome :=
  let denied := Done st [to_socket sid (error "Only the host can reset the buzzer")] in
  match rooms st !! code with
  | None =>
      match b with
      | Backend => denied
      | Bundled => Done st []
      end
  | Some room =>
      if is_host sid st then
        let room' := Room.reset room in
        Done (with_rooms (<[code := room']> (rooms st)) st)
             [to_room code (room_state (snapshot (heap st) room'))]
      else denied
  end.

Definition on_get_room (sid code : string) (st : State) : outcome :=
  match rooms st !! code with
  | None => Done st [ack sid (failure "Room not found")]
  | Some room => Done st [ack sid (found (snapshot (heap st) room))]
  end.

Definition on_disconnect (sid : string) (st : State) : outcome :=
  match map_get sid (players st) with
  | None => Done st []
  | Some d =>
      Done (with_players (map_delete sid (players st)) st)
           match rooms st !! roomCode d with
           | Some room => [to_room (roomCode d) (room_state (snapshot (heap st) room))]
           | None => []
           end
  end.

(** The body of the [forEach] of [delete-room]: the first directory entry
    whose player has the id of [p] is removed. *)
Definition drop_entry (h : list Player.t) (dir : list (string * PlayerData))
    (p : Player.t) : list (string * PlayerData) :=
  match List.find (λ e : string * PlayerData,
                     match h !! player e.2 with
                     | Some q => bool_decide (Player.id q = Player.id p)
                     | None => false
                     end) dir with
  | Some e => map_delete e.1 dir
  | None => dir
  end.

Definition on_delete_room (sid code : string) (st : State) : outcome :=
  if is_host sid st then
    match rooms st !! code with
    | None => Done st []
    | Some room =>
        Done (mkState (delete code (rooms st))
                      (foldl (drop_entry (heap st)) (players st)
                             (room_players (heap st) room))
                      (heap st))
             [to_room code room_deleted]
    end
  else Done st [to_socket sid (error "Only the host can delete the room")].

(** ** The periodic clean-up *)

Definition maxAge : Z := 2 * 60 * 60 * 1000.

(** The condition of the [if] in the sweep. *)
Definition expired (now : Z) (room : Room.t) : bool :=
  bool_decide (now - Room.createdAt room > maxAge)
  && bool_decide (List.length (Room.players room) = 0%nat).

(** One run of the interval callback at time [now]. *)
Definition cleanup (now : Z) (st : State) : State :=
  with_rooms
    (map_fold (λ code room rs, if expired now room then delete code rs else rs)
              (rooms st) (rooms st))
    st.

(** ** Commands and runs *)

Inductive command : Type :=
  | create_room (sid : string) (teamCount : Z) (hostName : string)
                (now : Z) (draws : list rendering)
  | join_room (sid roomCode playerName : string) (isHost : bool) (maxArguments : N)
  | press_buzzer (sid roomCode playerId : string) (now : Z)
  | reset_buzzer (sid roomCode : string)
  | get_room (sid roomCode : string)
  | disconnect (sid : string)
  | delete_room (sid roomCode : string)
  | sweep (now : Z).

Definition handle (b : build) (c : command) (st : State) : outcome :=
  match c with
  | create_room sid teamCount hostName now draws =>
      on_create_room sid teamCount hostName now draws st
  | join_room sid code playerName isHost maxArguments =>
      on_join_room sid code playerName isHost maxArguments st
  | press_buzzer _ code playerId now => on_press_buzzer b code playerId now st
  | reset_buzzer sid code => on_reset_buzzer b sid code st
  | get_room sid code => on_get_room sid code st
  | disconnect sid => on_disconnect sid st
  | delete_room sid code => on_delete_room sid code st
  | sweep now => Done (cleanup now st) []
  end.

(** The states the server can be in: commands are handled one at a time,
    each to completion, starting from the empty registries. *)
Inductive reachable (b : build) : State → Prop :=
  | reachable_initial : reachable b initial
  | reachable_step st c st' out :
      reachable b st → handle b c st = Done st' out → reachable b st'.

(** The state after a list of commands and the messages sent on the way,
    when each command completes. *)
Fixpoint run (b : build) (cs : list command) (st : State)
    : option (State * list emit) :=
  match cs with
  | [] => Some (st, [])
  | c :: rest =>
      match handle b c st with
      | Done st' out =>
          match run b rest st' with
          | Some (st'', out') => Some (st'', out ++ out')
          | None => None
          end
      | _ => None
      end
  end.

(** ** Notions used in the statements *)

(** The number of players of [ps] on team [t]. *)
Definition count_on (ps : list Player.t) (t : Z) : Z :=
  Z.of_nat (List.length (filter (λ p, Player.team p = t) ps)).

(** The buzzer fields of a room agree with each other. *)
Definition buzzer_consistent (r : Room.t) : Prop :=
  (Room.buzzerPressed r = true ↔ is_Some (Room.firstBuzzer r))
  ∧ (Room.buzzerOrder r ≠ [] ↔ Room.buzzerPressed r = true)
  ∧ (∀ e, Room.firstBuzzer r = Some e → Room.buzzerOrder r !! 0%nat = Some e).

(** Where the room found under [code] after a command comes from: it was
    there before, or it is new, or it is the room that was there with one
    more player, with an accepted press, or with the buzzer reset. *)
Inductive room_origin (st : State) (code : string) : Room.t → Prop :=
  | origin_kept r :
      rooms st !! code = Some r → room_origin st code r
  | origin_created teamCount hostName now :
      rooms st !! code = None →
      room_origin st code (Room.new code teamCount hostName now)
  | origin_joined r l :
      rooms st !! code = Some r → room_origin st code (Room.push_player l r)
  | origin_pressed r ev :
      rooms st !! code = Some r → Room.buzzerPressed r = false →
      room_origin st code (Room.press ev r)
  | origin_reset r :
      rooms st !! code = Some r → room_origin st code (Room.reset r).

(** A concrete session, used to instantiate the statements: two rooms;
    Alice hosts the first and Bob joins it, Carol hosts the second and Dan
    joins it; Dan has buzzed. *)
Definition session : list command :=
  [ create_room "c0" 2 "Alice" 1000 [[10; 11; 12; 1; 2; 3; 7; 7]%nat];
    create_room "c1" 3 "Carol" 2000 [[10; 11; 12; 1; 2; 3]%nat;
                                       [33; 34; 35; 7; 8; 9; 0; 1]%nat];
    join_room "alice" "ABC123" "Alice" true 100000;
    join_room "bob" "ABC123" "Bob" false 100000;
    join_room "carol" "XYZ789" "Carol" true 100000;
    join_room "dan" "XYZ789" "Dan" false 100000;
    press_buzzer "dan" "XYZ789" "dan" 3000 ].

Definition session_state : State :=
  match run Backend session initial with
  | Some (st, _) => st
  | None => initial
  end.

(** A press as it arrives: the connection that sent it, the [playerId] of
    its payload and the arrival time. *)
Record arrival : Type := mkArrival {
  arr_sid : string;
  arr_playerId : string;
  arr_now : Z
}.

(** The [press-buzzer] commands of a list of arrivals on room [code]. *)
Definition presses (code : string) (ps : list arrival) : list command :=
  (λ a, press_buzzer (arr_sid a) code (arr_playerId a) (arr_now a)) <$> ps.

(** The player of [room] that a press with [playerId] is attributed to. *)
Definition presser (st : State) (room : Room.t) (playerId : string)
    : option (ref * Player.t) :=
  find_player (λ p, bool_decide (Player.id p = playerId)) (heap st) (Room.players room).

(** The messages of an accepted press, in the order of each server. *)
Definition press_messages (b : build) (code : string) (ev : BuzzerEvent.t)
    (s : RoomSnapshot) : list emit :=
  match b with
  | Backend => [to_room code (buzzer_pressed ev); to_room code (room_state s)]
  | Bundled => [to_room code (room_state s); to_room code (buzzer_pressed ev)]
  end.

(** The session after Bob has joined his room again from a new connection. *)
Definition rejoin : command := join_room "zed" "ABC123" "Bob" true 100000.

Definition rejoined : State :=
  match handle Backend rejoin session_state with
  | Done st _ => st
  | _ => session_state
  end.

Definition rejoined_out : list emit :=
  match handle Backend rejoin session_state with
  | Done _ out => out
  | _ => []
  end.

(** Every reference held by a room or by a directory entry is a location
    of the player store. *)
Definition refs_valid (st : State) : Prop :=
  (∀ code r l, rooms st !! code = Some r → l ∈ Room.players r →
     (l < List.length (heap st))%nat)
  ∧ (∀ sid d, map_get sid (players st) = Some d →
       (player d < List.length (heap st))%nat).

(** The second room of the session, and its players. *)
Definition room_xyz : Room.t :=
  Room.mk "XYZ789" 3 "Carol" [2%nat; 3%nat] true
    (Some (BuzzerEvent.mk "dan" "Dan" 2 3000))
    [BuzzerEvent.mk "dan" "Dan" 2 3000] 2000.

(** What identifies a player apart from its connection. *)
Definition identity (p : Player.t) : string * string * Z * bool :=
  (Player.id p, Player.name p, Player.team p, Player.isHost p).

(** The team of the [i]-th player to join (from 0) a room of [teamCount]
    teams when teams are handed out in turn. *)
Definition turn_team (teamCount : Z) (i : nat) : Z :=
  Z.of_nat i mod teamCount + 1.

(** The buzzer fields of a room between two resets: nothing recorded, or
    one event recorded, as winner and as the whole ledger. *)
Definition buzzer_round (r : Room.t) : Prop :=
  (Room.buzzerPressed r = false ∧ Room.firstBuzzer r = None ∧ Room.buzzerOrder r = [])
  ∨ (∃ e, Room.buzzerPressed r = true ∧ Room.firstBuzzer r = Some e
          ∧ Room.buzzerOrder r = [e]).

(** The player ids of the directory entries, in order. *)
Definition entry_ids (h : list Player.t) (dir : list (string * PlayerData))
    : list (option string) :=
  (λ e : string * PlayerData, Player.id <$> h !! player e.2) <$> dir.

(** The room that a command names, if it names one. *)
Definition room_of (c : command) : option string :=
  match c with
  | join_room _ code _ _ _ | press_buzzer _ code _ _ | reset_buzzer _ code
  | get_room _ code | delete_room _ code => Some code
  | create_room _ _ _ _ _ | disconnect _ | sweep _ => None
  end.

(** What a command that completes does to the state: the branch of its
    handler that was taken, with the conditions of that branch. *)
Inductive effect (st : State) : command → State → Prop :=
  | effect_none c :
      effect st c st
  | effect_create sid teamCount hostName now draws code :
      rooms st !! code = None →
      effect st (create_room sid teamCount hostName now draws)
        (with_rooms (<[code := Room.new code teamCount hostName now]> (rooms st)) st)
  | effect_join sid code playerName isHost maxArguments room team :
      rooms st !! code = Some room →
      find_player (λ p, bool_decide (Player.name p = playerName))
                  (heap st) (Room.players room) = None →
      assignPlayerToTeam maxArguments (heap st) room = Some team →
      effect st (join_room sid code playerName isHost maxArguments)
        (mkState
           (<[code := Room.push_player (List.length (heap st)) room]> (rooms st))
           (map_set sid (mkPlayerData (List.length (heap st)) code) (players st))
           (heap st
            ++ [Player.mk sid playerName team
                  (isHost || bool_decide (List.length (Room.players room) = 0%nat))
                  sid]))
  | effect_rejoin sid code playerName isHost maxArguments room l p :
      rooms st !! code = Some room →
      find_player (λ p, bool_decide (Player.name p = playerName))
                  (heap st) (Room.players room) = Some (l, p) →
      effect st (join_room sid code playerName isHost maxArguments)
        (mkState (rooms st)
           (map_set sid (mkPlayerData l code) (players st))
           (<[l := Player.set_socketId sid p]> (heap st)))
  | effect_press sid code playerId now room l p :
      rooms st !! code = Some room →
      Room.buzzerPressed room = false →
      presser st room playerId = Some (l, p) →
      effect st (press_buzzer sid code playerId now)
        (with_rooms
           (<[code := Room.press
                (BuzzerEvent.mk (Player.id p) (Player.name p) (Player.team p) now)
                room]> (rooms st)) st)
  | effect_reset sid code room :
      rooms st !! code = Some room →
      is_host sid st = true →
      effect st (reset_buzzer sid code)
        (with_rooms (<[code := Room.reset room]> (rooms st)) st)
  | effect_disconnect sid d :
      map_get sid (players st) = Some d →
      effect st (disconnect sid) (with_players (map_delete sid (players st)) st)
  | effect_delete sid code room :
      is_host sid st = true →
      rooms st !! code = Some room →
      effect st (delete_room sid code)
        (mkState (delete code (rooms st))
           (foldl (drop_entry (heap st)) (players st) (room_players (heap st) room))
           (heap st))
  | effect_sweep now :
      effect st (sweep now) (cleanup now st).

(** The team counter of the start page: the two buttons, each disabled at
    its end of the range, and the state they set. *)
Inductive click : Type := Minus | Plus.

Definition setTeamCount (teamCount : Z) (c : click) : Z :=
  match c with
  | Minus => if bool_decide (teamCount <= 2) then teamCount else Z.max 2 (teamCount - 1)
  | Plus => if bool_decide (teamCount >= 8) then teamCount else Z.min 8 (teamCount + 1)
  end.

(** [useState(2)] followed by the clicks. *)
Definition teamCount_after (clicks : list click) : Z := foldl setTeamCount 2 clicks.

(** The connection that sent a command; the sweep is sent by no one. *)
Definition sender (c : command) : option string :=
  match c with
  | create_room sid _ _ _ _ | join_room sid _ _ _ _ | press_buzzer sid _ _ _
  | reset_buzzer sid _ | get_room sid _ | disconnect sid | delete_room sid _ => Some sid
  | sweep _ => None
  end.

(** * Properties *)

(** ** Room codes *)

Section RoomCodes.

Lemma toUpperCase_length s : String.length (toUpperCase s) = String.length s.
Proof. induction s as [|c s IH]; simpl; congruence. Qed.

Lemma substring_length_le n m s : (String.length (substring n m s) ≤ m)%nat.
Proof.
  revert n m. induction s as [|c s IH]; intros [|n] [|m]; simpl; try lia.
  - specialize (IH 0%nat m). lia.
  - apply (IH n 0%nat).
  - apply (IH n (S m)).
Qed.

Lemma substring_length_exact n m s :
  (n + m ≤ String.length s)%nat → String.length (substring n m s) = m.
Proof.
  revert n m. induction s as [|c s IH]; intros [|n] [|m]; simpl; intros Hle;
    try lia.
  - f_equal. apply (IH 0%nat m). lia.
  - apply (IH n 0%nat). lia.
  - apply (IH n (S m)). lia.
Qed.

Lemma string_of_list_ascii_length l :
  String.length (string_of_list_ascii l) = List.length l.
Proof. induction l; simpl; congruence. Qed.

Lemma toString36_length r :
  r ≠ [] → String.length (toString36 r) = (2 + List.length r)%nat.
Proof.
  destruct r as [|d r]; [done|]. intros _. unfold toString36.
  cbn [String.length]. by rewrite string_of_list_ascii_length, length_map.
Qed.

(** A code never has more than six characters. *)
Lemma generateRoomCode_length_le r : (String.length (generateRoomCode r) ≤ 6)%nat.
Proof.
  unfold generateRoomCode. rewrite toUpperCase_length. apply substring_length_le.
Qed.

(** It has six when the draw prints at least six digits. *)
Lemma generateRoomCode_length_full r :
  (6 ≤ List.length r)%nat → String.length (generateRoomCode r) = 6%nat.
Proof.
  intros Hr. unfold generateRoomCode. rewrite toUpperCase_length.
  apply substring_length_exact. rewrite toString36_length; [lia|].
  intros ->. simpl in Hr. lia.
Qed.

Lemma digit36_upper d : (d < 36)%nat → code_char (upper_ascii (digit36 d)) = true.
Proof.
  intros Hd. do 36 (destruct d as [|d]; [reflexivity|]). lia.
Qed.

Lemma string_forall_substring0 f m s :
  string_forall f s = true → string_forall f (substring 0 m s) = true.
Proof.
  revert m. induction s as [|c s IH]; intros [|m]; simpl; try done.
  intros [Hc Hs]%andb_true_iff. rewrite Hc. by apply IH.
Qed.

Lemma toUpperCase_substring0 m s :
  toUpperCase (substring 0 m s) = substring 0 m (toUpperCase s).
Proof.
  revert m. induction s as [|c s IH]; intros [|m]; simpl; try done.
  by rewrite IH.
Qed.

Lemma digits_upper r :
  base36 r →
  string_forall code_char (toUpperCase (string_of_list_ascii (map digit36 r))) = true.
Proof.
  induction 1 as [|d r Hd _ IH]; simpl; [done|].
  by rewrite digit36_upper, IH.
Qed.

(** Its characters are digits and upper-case letters. *)
Lemma generateRoomCode_alphabet r :
  base36 r → string_forall code_char (generateRoomCode r) = true.
Proof.
  intros Hr. unfold generateRoomCode. destruct r as [|d r]; [done|].
  unfold toString36. cbn [substring].
  rewrite toUpperCase_substring0. apply string_forall_substring0.
  by apply digits_upper.
Qed.

(** The code chosen by the loop of [createRoom] is the code of one of the
    draws and names no room of the registry. *)
Lemma fresh_code_spec rs draws roomCode :
  fresh_code rs draws = Some roomCode →
  rs !! roomCode = None ∧ ∃ r, r ∈ draws ∧ roomCode = generateRoomCode r.
Proof.
  induction draws as [|r draws IH]; simpl; [done|].
  destruct (rs !! generateRoomCode r) eqn:Hr.
  - intros [? (r' & ? & ?)]%IH. split; [done|]. exists r'. split; [by right|done].
  - intros [= <-]. split; [done|]. exists r. split; [by left|done].
Qed.

(** The loop ends as soon as a draw gives a free code. *)
Lemma fresh_code_total rs draws r :
  r ∈ draws → rs !! generateRoomCode r = None → is_Some (fresh_code rs draws).
Proof.
  induction draws as [|r' draws IH]; simpl.
  - by intros ?%elem_of_nil.
  - intros [->|Hin]%elem_of_cons Hfree.
    + by rewrite Hfree.
    + destruct (rs !! generateRoomCode r'); [by apply IH | done].
Qed.

Lemma createRoom_spec teamCount hostName now draws st room st' :
  createRoom teamCount hostName now draws st = Some (room, st') →
  fresh_code (rooms st) draws = Some (Room.code room)
  ∧ room = Room.new (Room.code room) teamCount hostName now
  ∧ st' = with_rooms (<[Room.code room := room]> (rooms st)) st.
Proof.
  unfold createRoom. destruct (fresh_code (rooms st) draws) as [c|]; [|done].
  intros [= <- <-]. done.
Qed.

(** X8 — what [createRoom] guarantees about the code of the room it
    returns, when the draws print base-36 digits: the code is free at
    creation time, has at most six characters, and is made of digits and
    upper-case letters. *)
Lemma createRoom_code teamCount hostName now draws st room st' :
  Forall base36 draws →
  createRoom teamCount hostName now draws st = Some (room, st') →
  rooms st !! Room.code room = None
  ∧ (String.length (Room.code room) ≤ 6)%nat
  ∧ string_forall code_char (Room.code room) = true.
Proof.
  intros Hdraws (Hfresh & _ & _)%createRoom_spec.
  apply fresh_code_spec in Hfresh as (Hfree & r & Hin & Hcode).
  split; [done|]. rewrite Hcode. split; [apply generateRoomCode_length_le|].
  apply generateRoomCode_alphabet. by eapply Forall_forall in Hdraws.
Qed.

End RoomCodes.

(** C5 — the code of a created room need not have six characters.
    With a draw of one half, which base 36 prints as "0.i", [createRoom]
    on the empty registry returns a room whose code is the single
    character "I". *)
Theorem createRoom_short_code :
  ∃ room st',
    createRoom 2 "Alice" 0 [[18%nat]] initial = Some (room, st')
    ∧ toString36 [18%nat] = "0.i"
    ∧ Room.code room = "I"
    ∧ String.length (Room.code room) = 1%nat
    ∧ rooms st' !! "I" = Some room.
Proof.
  eexists _, _. split; [reflexivity|]. repeat split.
Qed.

(** C4 — [createRoom] accepts a team count below one: on the empty
    registry, [create-room] with [teamCount = 0] acknowledges success and
    the room is in the registry afterwards. *)
Lemma createRoom_accepts_zero_teams :
  0 < 1
  ∧ ∃ room st',
      createRoom 0 "Alice" 0 [[18; 3; 4; 5; 6; 7]%nat] initial = Some (room, st')
      ∧ on_create_room "s0" 0 "Alice" 0 [[18; 3; 4; 5; 6; 7]%nat] initial
        = Done st' [ack "s0" (created "I34567")]
      ∧ Room.teamCount room = 0
      ∧ rooms st' !! "I34567" = Some room
      ∧ rooms initial !! "I34567" = None.
Proof.
  split; [lia|]. eexists _, _. split; [reflexivity|]. repeat split.
Qed.

(** C4, as the code has it — [createRoom] does not look at [teamCount]:
    whatever its value, as soon as one of the draws gives a free code the
    call returns a room with that team count, the room is in the registry
    under its code, and [create-room] acknowledges success with the code. *)
Theorem createRoom_any_teamCount sid teamCount hostName now draws st r :
  r ∈ draws → rooms st !! generateRoomCode r = None →
  ∃ room st',
    createRoom teamCount hostName now draws st = Some (room, st')
    ∧ Room.teamCount room = teamCount
    ∧ rooms st !! Room.code room = None
    ∧ rooms st' !! Room.code room = Some room
    ∧ on_create_room sid teamCount hostName now draws st
      = Done st' [ack sid (created (Room.code room))].
Proof.
  intros Hin Hfree.
  destruct (fresh_code_total _ _ _ Hin Hfree) as [c Hc].
  unfold on_create_room, createRoom. rewrite Hc.
  eexists _, _. split; [reflexivity|]. simpl.
  apply fresh_code_spec in Hc as [Hnone _].
  repeat split; [done|]. apply lookup_insert_eq.
Qed.

Lemma createRoom_any_teamCount_witness :
  ∃ room st',
    createRoom (-3) "Eve" 5 [[1; 2]%nat] initial = Some (room, st')
    ∧ Room.teamCount room = -3
    ∧ rooms initial !! Room.code room = None
    ∧ rooms st' !! Room.code room = Some room
    ∧ on_create_room "s9" (-3) "Eve" 5 [[1; 2]%nat] initial
      = Done st' [ack "s9" (created (Room.code room))].
Proof.
  apply (createRoom_any_teamCount "s9" (-3) "Eve" 5 [[1; 2]%nat] initial [1; 2]%nat).
  - apply list_elem_of_here.
  - reflexivity.
Defined.


(** ** Team assignment *)

Section TeamAssigner.

Lemma count_on_cons p ps t :
  count_on (p :: ps) t
  = (if bool_decide (Player.team p = t) then 1 else 0) + count_on ps t.
Proof.
  unfold count_on. rewrite filter_cons.
  case_bool_decide; case_decide; try done; simpl; lia.
Qed.

Lemma count_on_nonneg ps t : 0 ≤ count_on ps t.
Proof. unfold count_on. lia. Qed.

Lemma count_player_length n acc p :
  List.length (count_player n acc p) = List.length acc.
Proof.
  unfold count_player. destruct (_ && _); [|done].
  destruct (acc !! _); [|done]. apply length_insert.
Qed.

(** One iteration adds one to the slot of the player's team and to no other. *)
Lemma count_player_lookup n acc p i c :
  List.length acc = Z.to_nat n → acc !! i = Some c →
  count_player n acc p !! i
  = Some (c + if bool_decide (Player.team p = Z.of_nat i + 1) then 1 else 0).
Proof.
  intros Hlen Hi. pose proof (lookup_lt_Some _ _ _ Hi) as Hlt.
  unfold count_player.
  destruct (bool_decide (Player.team p > 0)) eqn:Hpos;
    [apply bool_decide_eq_true in Hpos | apply bool_decide_eq_false in Hpos];
    (destruct (bool_decide (Player.team p <= n)) eqn:Hle;
      [apply bool_decide_eq_true in Hle | apply bool_decide_eq_false in Hle]);
    simpl.
  - destruct (decide (Z.to_nat (Player.team p - 1) = i)) as [Heq|Hne].
    + rewrite Heq, Hi, list_lookup_insert_eq by done.
      rewrite bool_decide_eq_true_2 by lia. done.
    + destruct (acc !! Z.to_nat (Player.team p - 1)) eqn:Hslot.
      * rewrite list_lookup_insert_ne by done.
        rewrite bool_decide_eq_false_2 by lia. rewrite Hi. f_equal. lia.
      * rewrite bool_decide_eq_false_2 by lia. rewrite Hi. f_equal. lia.
  - rewrite bool_decide_eq_false_2 by lia. rewrite Hi. f_equal. lia.
  - rewrite bool_decide_eq_false_2 by lia. rewrite Hi. f_equal. lia.
  - rewrite bool_decide_eq_false_2 by lia. rewrite Hi. f_equal. lia.
Qed.

Lemma foldl_count_player n ps : ∀ acc,
  List.length acc = Z.to_nat n →
  List.length (foldl (count_player n) acc ps) = Z.to_nat n
  ∧ ∀ i c, acc !! i = Some c →
      foldl (count_player n) acc ps !! i = Some (c + count_on ps (Z.of_nat i + 1)).
Proof.
  induction ps as [|p ps IH]; intros acc Hlen; simpl.
  - split; [done|]. intros i c ->. f_equal. unfold count_on. simpl. lia.
  - destruct (IH (count_player n acc p)) as [IHlen IHget].
    { by rewrite count_player_length. }
    split; [done|]. intros i c Hi.
    rewrite (IHget i _ (count_player_lookup n acc p i c Hlen Hi)).
    f_equal. rewrite count_on_cons. lia.
Qed.

(** After the [forEach], slot [i] holds the number of players on team [i + 1]. *)
Lemma team_counts_spec h room :
  0 ≤ Room.teamCount room →
  List.length (team_counts h room) = Z.to_nat (Room.teamCount room)
  ∧ ∀ i, (i < Z.to_nat (Room.teamCount room))%nat →
      team_counts h room !! i = Some (count_on (room_players h room) (Z.of_nat i + 1)).
Proof.
  intros Hn. unfold team_counts.
  destruct (foldl_count_player (Room.teamCount room) (room_players h room)
              (replicate (Z.to_nat (Room.teamCount room)) 0)) as [Hlen Hget].
  { apply length_replicate. }
  split; [done|]. intros i Hi.
  rewrite (Hget i 0); [done|]. by apply lookup_replicate_2.
Qed.

Lemma Math_min_spec xs m :
  Math_min xs = Some m → m ∈ xs ∧ ∀ x, x ∈ xs → m ≤ x.
Proof.
  revert m. induction xs as [|x xs IH]; intros m; simpl; [done|].
  destruct (Math_min xs) as [m'|] eqn:Hmin.
  - destruct (IH m' eq_refl) as [Hin Hle]. intros [= <-]. split.
    + destruct (Z.min_spec x m') as [[_ ->]|[_ ->]]; [left | by right].
    + intros y [->|Hy]%elem_of_cons; [lia|]. specialize (Hle y Hy). lia.
  - intros [= <-]. split; [left|].
    intros y [->|Hy]%elem_of_cons; [lia|].
    destruct xs; [by apply elem_of_nil in Hy|]. simpl in Hmin.
    by destruct (Math_min xs).
Qed.

Lemma Math_min_is_Some xs : xs ≠ [] → is_Some (Math_min xs).
Proof. destruct xs as [|x xs]; [done|]. simpl. destruct (Math_min xs); eauto. Qed.

(** [indexOf] gives the first position of an element that occurs. *)
Lemma indexOf_from_spec x xs : ∀ i,
  x ∈ xs →
  ∃ k : nat, indexOf_from i x xs = i + Z.of_nat k
    ∧ xs !! k = Some x
    ∧ ∀ j y, (j < k)%nat → xs !! j = Some y → y ≠ x.
Proof.
  induction xs as [|y xs IH]; intros i Hin; [by apply elem_of_nil in Hin|].
  simpl. case_bool_decide as Hy.
  - exists 0%nat. subst y. split; [lia|]. split; [done|]. intros; lia.
  - apply elem_of_cons in Hin as [->|Hin]; [done|].
    destruct (IH (i + 1) Hin) as (k & Hk & Hget & Hfirst).
    exists (S k). split; [lia|]. split; [done|].
    intros [|j] z Hj; simpl; [by intros [= <-]|].
    apply Hfirst. lia.
Qed.


(** [assignPlayerToTeam] goes through its two checks when the team count
    is an array length that the engine accepts as a number of arguments,
    and only then. *)
Lemma assignPlayerToTeam_runs maxArguments h room :
  0 ≤ Room.teamCount room →
  Room.teamCount room ≤ maxArrayLength →
  Room.teamCount room ≤ Z.of_N maxArguments →
  assignPlayerToTeam maxArguments h room
  = Some (match Math_min (team_counts h room) with
          | None => -1
          | Some minCount => indexOf minCount (team_counts h room)
          end + 1).
Proof.
  intros Hpos Hlength Hargs. unfold assignPlayerToTeam.
  rewrite !bool_decide_eq_false_2 by lia. simpl.
  destruct (team_counts_spec h room) as [Hlen _]; [done|].
  rewrite bool_decide_eq_false_2; [done|]. rewrite Hlen. lia.
Qed.

Lemma assignPlayerToTeam_Some maxArguments h room t :
  assignPlayerToTeam maxArguments h room = Some t →
  0 ≤ Room.teamCount room
  ∧ Room.teamCount room ≤ maxArrayLength
  ∧ Room.teamCount room ≤ Z.of_N maxArguments.
Proof.
  unfold assignPlayerToTeam.
  case_bool_decide as Hneg; [done|]. case_bool_decide as Hbig; [done|]. simpl.
  destruct (team_counts_spec h room) as [Hlen _]; [lia|]. rewrite Hlen.
  case_bool_decide as Hargs; [done|]. intros _. lia.
Qed.

End TeamAssigner.



(** ** The periodic clean-up *)

Section Cleanup.

(** The loop of the sweep removes the expired rooms and no other. *)
Lemma cleanup_lookup now st code :
  rooms (cleanup now st) !! code
  = match rooms st !! code with
    | Some room => if expired now room then None else Some room
    | None => None
    end.
Proof.
  unfold cleanup. simpl.
  set (f := λ (code : string) (room : Room.t) (rs : gmap string Room.t),
              if expired now room then delete code rs else rs).
  assert (Hfold : ∀ init m c,
    map_fold f init m !! c
    = match m !! c with
      | Some room => if expired now room then None else init !! c
      | None => init !! c
      end).
  { intros init m. revert m.
    apply (map_fold_weak_ind
             (λ r m, ∀ c, r !! c = match m !! c with
                                   | Some room => if expired now room then None else init !! c
                                   | None => init !! c
                                   end)).
    - intros c. by rewrite lookup_empty.
    - intros i x m r Hfree IH c. unfold f.
      destruct (decide (i = c)) as [->|Hne].
      + rewrite lookup_insert_eq. destruct (expired now x).
        * apply lookup_delete_eq.
        * rewrite IH. by rewrite Hfree.
      + rewrite lookup_insert_ne by done. destruct (expired now x).
        * rewrite lookup_delete_ne by done. apply IH.
        * apply IH. }
  rewrite Hfold. destruct (rooms st !! code) eqn:Hc; by rewrite ?Hc.
Qed.

Lemma cleanup_players now st : players (cleanup now st) = players st.
Proof. done. Qed.

Lemma cleanup_heap now st : heap (cleanup now st) = heap st.
Proof. done. Qed.

End Cleanup.

(** C10 — a sweep at time [now] keeps every room that has a player,
    whatever its age, and removes a room without players exactly when
    [now] is more than two hours (7 200 000 ms) after its creation; a room
    that is kept is kept as it is. *)
Theorem cleanup_spec now st code room :
  rooms st !! code = Some room →
  (Room.players room ≠ [] → rooms (cleanup now st) !! code = Some room)
  ∧ (Room.players room = [] →
       (rooms (cleanup now st) !! code = None
        ↔ now - Room.createdAt room > 7200000))
  ∧ (rooms (cleanup now st) !! code = None
     ∨ rooms (cleanup now st) !! code = Some room).
Proof.
  intros Hroom. rewrite cleanup_lookup, Hroom. unfold expired, maxAge.
  split; [|split].
  - intros Hne. rewrite (bool_decide_eq_false_2 (List.length _ = 0%nat)).
    + by rewrite andb_false_r.
    + by destruct (Room.players room).
  - intros Hempty. rewrite Hempty. simpl. rewrite andb_true_r. split.
    + intros Hgone. case_bool_decide as Hage; [lia|done].
    + intros Hage. by rewrite bool_decide_eq_true_2 by lia.
  - destruct (_ && _); auto.
Qed.

Lemma cleanup_spec_witness :
  rooms session_state !! "ABC123"
  = Some (Room.mk "ABC123" 2 "Alice" [0%nat; 1%nat] false None [] 1000)
  ∧ rooms (cleanup 999999999 session_state) !! "ABC123"
    = Some (Room.mk "ABC123" 2 "Alice" [0%nat; 1%nat] false None [] 1000).
Proof.
  split; [reflexivity|].
  apply (cleanup_spec 999999999 session_state "ABC123"
           (Room.mk "ABC123" 2 "Alice" [0%nat; 1%nat] false None [] 1000)).
  - reflexivity.
  - discriminate.
Defined.

(** ** How a command changes the registry *)

Section Steps.

Lemma on_create_room_Done sid teamCount hostName now draws st st' out :
  on_create_room sid teamCount hostName now draws st = Done st' out →
  ∃ code,
    rooms st !! code = None
    ∧ st' = with_rooms (<[code := Room.new code teamCount hostName now]> (rooms st)) st
    ∧ out = [ack sid (created code)].
Proof.
  unfold on_create_room.
  destruct (createRoom teamCount hostName now draws st) as [[room st1]|] eqn:Hcreate;
    [|done].
  intros [= <- <-].
  apply createRoom_spec in Hcreate as (Hfresh & Hroom & ->).
  apply fresh_code_spec in Hfresh as [Hfree _].
  exists (Room.code room). by rewrite <- Hroom.
Qed.

Lemma handle_rooms b c st st' out code r' :
  handle b c st = Done st' out →
  rooms st' !! code = Some r' →
  room_origin st code r'.
Proof.
  destruct c as [sid tc hn now draws | sid rc pn ih ma | sid rc pid now | sid rc
                | sid rc | sid | sid rc | now]; simpl.
  - intros (c & Hfree & -> & _)%on_create_room_Done. simpl.
    destruct (decide (c = code)) as [->|Hne].
    + rewrite lookup_insert_eq. intros [= <-]. by constructor.
    + rewrite lookup_insert_ne by done. by constructor.
  - unfold on_join_room. destruct (rooms st !! rc) as [room|] eqn:Hrc.
    + destruct (find_player _ _ _) as [[l p]|].
      * intros [= <- _]. simpl. by constructor.
      * destruct (assignPlayerToTeam _ _ _) as [team|]; [|done].
        intros [= <- _]. simpl.
        destruct (decide (rc = code)) as [->|Hne].
        -- rewrite lookup_insert_eq. intros [= <-]. by apply origin_joined.
        -- rewrite lookup_insert_ne by done. by constructor.
    + intros [= <- _]. by constructor.
  - unfold on_press_buzzer. destruct (rooms st !! rc) as [room|] eqn:Hrc.
    + destruct (Room.buzzerPressed room) eqn:Hopen.
      * intros [= <- _]. by constructor.
      * destruct (find_player _ _ _) as [[l p]|].
        -- intros [= <- _]. simpl.
           destruct (decide (rc = code)) as [->|Hne].
           ++ rewrite lookup_insert_eq. intros [= <-]. by apply origin_pressed.
           ++ rewrite lookup_insert_ne by done. by constructor.
        -- intros [= <- _]. by constructor.
    + intros [= <- _]. by constructor.
  - unfold on_reset_buzzer. destruct (rooms st !! rc) as [room|] eqn:Hrc.
    + destruct (is_host sid st).
      * intros [= <- _]. simpl.
        destruct (decide (rc = code)) as [->|Hne].
        -- rewrite lookup_insert_eq. intros [= <-]. by apply origin_reset.
        -- rewrite lookup_insert_ne by done. by constructor.
      * intros [= <- _]. by constructor.
    + destruct b; intros [= <- _]; by constructor.
  - unfold on_get_room. destruct (rooms st !! rc); intros [= <- _]; by constructor.
  - unfold on_disconnect. destruct (map_get sid (players st));
      intros [= <- _]; by constructor.
  - unfold on_delete_room. destruct (is_host sid st).
    + destruct (rooms st !! rc) as [room|] eqn:Hrc.
      * intros [= <- _]. simpl.
        destruct (decide (rc = code)) as [->|Hne].
        -- by rewrite lookup_delete_eq.
        -- rewrite lookup_delete_ne by done. by constructor.
      * intros [= <- _]. by constructor.
    + intros [= <- _]. by constructor.
  - intros [= <- _]. rewrite cleanup_lookup.
    destruct (rooms st !! code) as [room|] eqn:Hc; [|done].
    destruct (expired now room); [done|]. intros [= <-]. by constructor.
Qed.

Lemma buzzer_consistent_new code teamCount hostName now :
  buzzer_consistent (Room.new code teamCount hostName now).
Proof.
  unfold buzzer_consistent. simpl. split; [|split].
  - split; [done|]. by intros [? ?].
  - done.
  - done.
Qed.

Lemma buzzer_consistent_push l r :
  buzzer_consistent r → buzzer_consistent (Room.push_player l r).
Proof. done. Qed.

Lemma buzzer_consistent_press ev r :
  buzzer_consistent r → Room.buzzerPressed r = false →
  buzzer_consistent (Room.press ev r).
Proof.
  intros (_ & Horder & _) Hopen. unfold buzzer_consistent. simpl.
  assert (Room.buzzerOrder r = []) as ->.
  { destruct (Room.buzzerOrder r) as [|e es] eqn:He; [done|].
    assert (Room.buzzerPressed r = true) by (by apply Horder). congruence. }
  simpl. split; [|split].
  - split; eauto.
  - done.
  - by intros e [= <-].
Qed.

Lemma buzzer_consistent_reset r : buzzer_consistent (Room.reset r).
Proof.
  unfold buzzer_consistent. simpl. split; [|split].
  - split; [done|]. by intros [? ?].
  - done.
  - done.
Qed.

Lemma room_origin_consistent st code r' :
  (∀ c r, rooms st !! c = Some r → buzzer_consistent r) →
  room_origin st code r' → buzzer_consistent r'.
Proof.
  intros Hst [r Hr | tc hn now _ | r l Hr | r ev Hr Hopen | r Hr].
  - by eapply Hst.
  - apply buzzer_consistent_new.
  - apply buzzer_consistent_push. by eapply Hst.
  - apply buzzer_consistent_press; [by eapply Hst | done].
  - apply buzzer_consistent_reset.
Qed.

End Steps.

(** C2 — in every state the server reaches through its commands
    (create-room, join-room, press-buzzer, reset-buzzer, get-room,
    disconnect, delete-room, and the sweep), every room has [buzzerPressed]
    true exactly when [firstBuzzer] is present, a non-empty [buzzerOrder]
    exactly when [buzzerPressed] is true, and a [firstBuzzer] that is
    [buzzerOrder[0]]. *)
Theorem reachable_buzzer_consistent b st code room :
  reachable b st → rooms st !! code = Some room → buzzer_consistent room.
Proof.
  intros Hreach. revert code room.
  induction Hreach as [|st c st' out _ IH Hstep]; intros code room Hroom.
  - simpl in Hroom. by rewrite lookup_empty in Hroom.
  - eapply room_origin_consistent; [exact IH|].
    by eapply handle_rooms.
Qed.

Lemma run_reachable b cs : ∀ st st' out,
  reachable b st → run b cs st = Some (st', out) → reachable b st'.
Proof.
  induction cs as [|c cs IH]; intros st st' out Hst; simpl.
  - by intros [= <- _].
  - destruct (handle b c st) as [st1 out1| |] eqn:Hc; try done.
    destruct (run b cs st1) as [[st2 out2]|] eqn:Hrest; [|done].
    intros [= <- _]. eapply IH; [|exact Hrest].
    by eapply reachable_step.
Qed.


Lemma session_reachable b : reachable b session_state.
Proof.
  destruct b;
    (eapply (run_reachable _ session initial);
     [constructor | vm_compute; reflexivity]).
Qed.

Lemma reachable_buzzer_consistent_witness :
  buzzer_consistent
    (Room.mk "XYZ789" 3 "Carol" [2%nat; 3%nat] true
       (Some (BuzzerEvent.mk "dan" "Dan" 2 3000))
       [BuzzerEvent.mk "dan" "Dan" 2 3000] 2000).
Proof.
  apply (reachable_buzzer_consistent Bundled session_state "XYZ789").
  - apply session_reachable.
  - reflexivity.
Defined.

(** ** The buzzer *)

Section Buzzer.

Lemma press_missing b st code playerId now :
  rooms st !! code = None → on_press_buzzer b code playerId now st = Done st [].
Proof. intros Hroom. unfold on_press_buzzer. by rewrite Hroom. Qed.

Lemma press_locked b st code room playerId now :
  rooms st !! code = Some room → Room.buzzerPressed room = true →
  on_press_buzzer b code playerId now st = Done st [].
Proof. intros Hroom Hlocked. unfold on_press_buzzer. by rewrite Hroom, Hlocked. Qed.

Lemma press_unknown b st code room playerId now :
  rooms st !! code = Some room → presser st room playerId = None →
  on_press_buzzer b code playerId now st = Done st [].
Proof.
  intros Hroom Hunknown. unfold on_press_buzzer, presser in *.
  rewrite Hroom, Hunknown. by destruct (Room.buzzerPressed room).
Qed.

Lemma press_accepted b st code room playerId now l p :
  rooms st !! code = Some room → Room.buzzerPressed room = false →
  presser st room playerId = Some (l, p) →
  let ev := BuzzerEvent.mk (Player.id p) (Player.name p) (Player.team p) now in
  on_press_buzzer b code playerId now st
  = Done (with_rooms (<[code := Room.press ev room]> (rooms st)) st)
         (press_messages b code ev (snapshot (heap st) (Room.press ev room))).
Proof.
  intros Hroom Hopen Hknown. unfold on_press_buzzer, presser in *.
  rewrite Hroom, Hopen, Hknown. by destruct b.
Qed.

(** A list of presses that are all dropped leaves the state as it is and
    sends nothing. *)
Lemma run_presses_dropped b st code ps :
  Forall (λ a, on_press_buzzer b code (arr_playerId a) (arr_now a) st = Done st []) ps →
  run b (presses code ps) st = Some (st, []).
Proof.
  induction 1 as [|a ps Ha _ IH]; [done|].
  unfold presses in *. rewrite fmap_cons. cbn [run handle].
  by rewrite Ha, IH.
Qed.

Lemma run_app b cs1 cs2 st st1 out1 :
  run b cs1 st = Some (st1, out1) →
  run b (cs1 ++ cs2) st
  = match run b cs2 st1 with
    | Some (st2, out2) => Some (st2, out1 ++ out2)
    | None => None
    end.
Proof.
  revert st out1. induction cs1 as [|c cs1 IH]; intros st out1; simpl.
  - intros [= <- <-]. by destruct (run b cs2 st) as [[? ?]|].
  - destruct (handle b c st) as [st' out'| |]; try done.
    destruct (run b cs1 st') as [[st'' out'']|] eqn:Hrest; [|done].
    intros [= <- <-]. rewrite (IH _ _ Hrest).
    destruct (run b cs2 st'') as [[? ?]|]; [|done]. by rewrite app_assoc.
Qed.

Lemma is_host_with_rooms sid rs st : is_host sid (with_rooms rs st) = is_host sid st.
Proof. done. Qed.

End Buzzer.

(** C1 — on a room that is open, a list of presses is decided by the
    first one whose [playerId] is known in the room: the presses before it
    are dropped, that one is accepted — it sets [buzzerPressed], makes its
    event the [firstBuzzer] and appends it, alone, to [buzzerOrder] — and
    the whole list leaves the state and the messages of that single press.
    In the state it leaves, every press on the room is dropped: the state
    is unchanged and nothing is sent, no error either.  A reset by a host
    gives a room that is open again, with the same players. *)
Theorem first_press_wins b st code room pre a post l p :
  rooms st !! code = Some room →
  Room.buzzerPressed room = false →
  Forall (λ a', presser st room (arr_playerId a') = None) pre →
  presser st room (arr_playerId a) = Some (l, p) →
  let ev := BuzzerEvent.mk (Player.id p) (Player.name p) (Player.team p) (arr_now a) in
  let room1 := Room.press ev room in
  let st1 := with_rooms (<[code := room1]> (rooms st)) st in
  let out := press_messages b code ev (snapshot (heap st) room1) in
  run b (presses code pre) st = Some (st, [])
  ∧ on_press_buzzer b code (arr_playerId a) (arr_now a) st = Done st1 out
  ∧ run b (presses code (pre ++ a :: post)) st = Some (st1, out)
  ∧ rooms st1 !! code = Some room1
  ∧ Room.buzzerPressed room1 = true
  ∧ Room.firstBuzzer room1 = Some ev
  ∧ Room.buzzerOrder room1 = Room.buzzerOrder room ++ [ev]
  ∧ (∀ playerId now, on_press_buzzer b code playerId now st1 = Done st1 [])
  ∧ (∀ host, is_host host st1 = true →
       ∃ st2 out2 room2,
         on_reset_buzzer b host code st1 = Done st2 out2
         ∧ rooms st2 !! code = Some room2
         ∧ Room.buzzerPressed room2 = false
         ∧ Room.buzzerOrder room2 = []
         ∧ Room.players room2 = Room.players room
         ∧ heap st2 = heap st).
Proof.
  intros Hroom Hopen Hpre Hknown ev room1 st1 out.
  assert (Hdropped : run b (presses code pre) st = Some (st, [])).
  { apply run_presses_dropped. eapply Forall_impl; [exact Hpre|].
    intros a' Ha'. by eapply press_unknown. }
  assert (Haccept : on_press_buzzer b code (arr_playerId a) (arr_now a) st = Done st1 out).
  { by apply (press_accepted b st code room _ _ l p). }
  assert (Hroom1 : rooms st1 !! code = Some room1).
  { apply lookup_insert_eq. }
  assert (Hafter : ∀ playerId now, on_press_buzzer b code playerId now st1 = Done st1 []).
  { intros playerId now. by eapply press_locked. }
  repeat split; try done.
  - unfold presses. rewrite fmap_app. fold (presses code pre).
    rewrite (run_app _ _ _ _ _ _ Hdropped). rewrite fmap_cons.
    cbn [run handle app]. rewrite Haccept. fold (presses code post).
    rewrite run_presses_dropped; [by rewrite app_nil_r|].
    apply Forall_forall. intros a' _. apply Hafter.
  - intros host Hhost. unfold on_reset_buzzer. rewrite Hroom1, Hhost.
    eexists _, _, _. split; [reflexivity|]. simpl.
    split; [apply lookup_insert_eq|]. done.
Qed.

Lemma first_press_wins_witness :
  run Backend
      (presses "ABC123"
         [mkArrival "zed" "nobody" 4000; mkArrival "bob" "bob" 4001;
          mkArrival "alice" "alice" 4002])
      session_state
  = Some
      (with_rooms
         (<["ABC123" :=
              Room.mk "ABC123" 2 "Alice" [0%nat; 1%nat] true
                (Some (BuzzerEvent.mk "bob" "Bob" 2 4001))
                [BuzzerEvent.mk "bob" "Bob" 2 4001] 1000]> (rooms session_state))
         session_state,
       press_messages Backend "ABC123" (BuzzerEvent.mk "bob" "Bob" 2 4001)
         (snapshot (heap session_state)
            (Room.mk "ABC123" 2 "Alice" [0%nat; 1%nat] true
               (Some (BuzzerEvent.mk "bob" "Bob" 2 4001))
               [BuzzerEvent.mk "bob" "Bob" 2 4001] 1000))).
Proof.
  refine (proj1 (proj2 (proj2
    (first_press_wins Backend session_state "ABC123"
       (Room.mk "ABC123" 2 "Alice" [0%nat; 1%nat] false None [] 1000)
       [mkArrival "zed" "nobody" 4000] (mkArrival "bob" "bob" 4001)
       [mkArrival "alice" "alice" 4002]
       1%nat (Player.mk "bob" "Bob" 2 false "bob") _ _ _ _)))).
  - reflexivity.
  - reflexivity.
  - repeat constructor.
  - reflexivity.
Defined.

(** ** Reset and delete *)

(** C7 — on an existing room, [reset-buzzer] from a connection that is
    not bound to a host player sends the caller the error "Only the host
    can reset the buzzer" and leaves the whole state, so the room's
    [buzzerPressed], [firstBuzzer] and [buzzerOrder], as it was; from a
    connection bound to a host it sets [buzzerPressed] to false,
    [firstBuzzer] to absent and [buzzerOrder] to empty, changing nothing
    else of the room, and doing it again gives the same state. *)
Theorem reset_buzzer_spec b st sid code room :
  rooms st !! code = Some room →
  (is_host sid st = false →
     on_reset_buzzer b sid code st
     = Done st [to_socket sid (error "Only the host can reset the buzzer")])
  ∧ (is_host sid st = true →
     ∃ st' room' out,
       on_reset_buzzer b sid code st = Done st' out
       ∧ out = [to_room code (room_state (snapshot (heap st) room'))]
       ∧ rooms st' = <[code := room']> (rooms st)
       ∧ players st' = players st ∧ heap st' = heap st
       ∧ Room.buzzerPressed room' = false
       ∧ Room.firstBuzzer room' = None
       ∧ Room.buzzerOrder room' = []
       ∧ room' = Room.mk (Room.code room) (Room.teamCount room) (Room.hostName room)
                   (Room.players room) false None [] (Room.createdAt room)
       ∧ on_reset_buzzer b sid code st' = Done st' out).
Proof.
  intros Hroom. unfold on_reset_buzzer at 1 2. rewrite Hroom. split.
  - by intros ->.
  - intros Hhost. rewrite Hhost. eexists _, (Room.reset room), _.
    split; [reflexivity|]. repeat split.
    unfold on_reset_buzzer. simpl. rewrite lookup_insert_eq.
    rewrite is_host_with_rooms, Hhost. unfold with_rooms. simpl.
    by rewrite insert_insert_eq.
Qed.

Lemma reset_buzzer_spec_witness :
  on_reset_buzzer Bundled "dan" "XYZ789" session_state
  = Done session_state [to_socket "dan" (error "Only the host can reset the buzzer")].
Proof.
  refine (proj1 (reset_buzzer_spec Bundled session_state "dan" "XYZ789"
    (Room.mk "XYZ789" 3 "Carol" [2%nat; 3%nat] true
       (Some (BuzzerEvent.mk "dan" "Dan" 2 3000))
       [BuzzerEvent.mk "dan" "Dan" 2 3000] 2000) _) _).
  - reflexivity.
  - reflexivity.
Defined.

(** C3 — the check of [reset-buzzer] and [delete-room] is the host flag
    of the player bound to the requesting connection, whatever room that
    player is in: it lets the request through on any existing room.  In the
    session of two rooms, Alice, host of the first room and not a player of
    the second, resets the buzzer of the second room and deletes it. *)
Theorem host_check_ignores_room :
  (∀ b st sid code room,
     is_host sid st = true → rooms st !! code = Some room →
     (∃ st', on_reset_buzzer b sid code st
             = Done st' [to_room code (room_state (snapshot (heap st) (Room.reset room)))]
           ∧ rooms st' !! code = Some (Room.reset room))
     ∧ (∃ st', on_delete_room sid code st = Done st' [to_room code room_deleted]
             ∧ rooms st' !! code = None))
  ∧ (∀ b, ∃ st sid A B roomA roomB d p,
       reachable b st
       ∧ A ≠ B
       ∧ rooms st !! A = Some roomA ∧ rooms st !! B = Some roomB
       ∧ map_get sid (players st) = Some d
       ∧ roomCode d = A
       ∧ (player d ∈ Room.players roomA)
       ∧ (player d ∉ Room.players roomB)
       ∧ heap st !! player d = Some p
       ∧ Player.isHost p = true
       ∧ Room.buzzerPressed roomB = true
       ∧ (∃ st' roomB', on_reset_buzzer b sid B st
                 = Done st' [to_room B (room_state (snapshot (heap st) roomB'))]
               ∧ rooms st' !! B = Some roomB'
               ∧ Room.buzzerPressed roomB' = false
               ∧ Room.firstBuzzer roomB' = None
               ∧ Room.buzzerOrder roomB' = [])
       ∧ (∃ st', on_delete_room sid B st = Done st' [to_room B room_deleted]
               ∧ rooms st' !! B = None)).
Proof.
  assert (Hgeneral : ∀ b st sid code room,
     is_host sid st = true → rooms st !! code = Some room →
     (∃ st', on_reset_buzzer b sid code st
             = Done st' [to_room code (room_state (snapshot (heap st) (Room.reset room)))]
           ∧ rooms st' !! code = Some (Room.reset room))
     ∧ (∃ st', on_delete_room sid code st = Done st' [to_room code room_deleted]
             ∧ rooms st' !! code = None)).
  { intros b st sid code room Hhost Hroom. split.
    - unfold on_reset_buzzer. rewrite Hroom, Hhost. eexists. split; [reflexivity|].
      apply lookup_insert_eq.
    - unfold on_delete_room. rewrite Hroom, Hhost. eexists. split; [reflexivity|].
      apply lookup_delete_eq. }
  split; [exact Hgeneral|]. intros b.
  set (roomB := Room.mk "XYZ789" 3 "Carol" [2%nat; 3%nat] true
       (Some (BuzzerEvent.mk "dan" "Dan" 2 3000))
       [BuzzerEvent.mk "dan" "Dan" 2 3000] 2000).
  assert (Hhost : is_host "alice" session_state = true) by (vm_compute; reflexivity).
  assert (HroomB : rooms session_state !! "XYZ789" = Some roomB)
    by (vm_compute; reflexivity).
  exists session_state, "alice", "ABC123", "XYZ789",
    (Room.mk "ABC123" 2 "Alice" [0%nat; 1%nat] false None [] 1000), roomB,
    (mkPlayerData 0%nat "ABC123"), (Player.mk "alice" "Alice" 1 true "alice").
  split; [apply session_reachable|].
  split; [discriminate|].
  split; [vm_compute; reflexivity|].
  split; [exact HroomB|].
  split; [vm_compute; reflexivity|].
  split; [reflexivity|].
  split; [apply list_elem_of_here|].
  split.
  { change (0%nat ∉ [2%nat; 3%nat]).
    intros [?|[?|?%elem_of_nil]%elem_of_cons]%elem_of_cons; lia || assumption. }
  split; [vm_compute; reflexivity|].
  split; [reflexivity|]. split; [reflexivity|].
  destruct (Hgeneral b session_state "alice" "XYZ789" roomB Hhost HroomB)
    as [(st1 & Hreset & Hroom1) (st2 & Hdelete & Hroom2)].
  split.
  - exists st1, (Room.reset roomB).
    split; [exact Hreset|]. split; [exact Hroom1|]. split; [|split]; reflexivity.
  - exists st2. split; [exact Hdelete | exact Hroom2].
Qed.

Lemma host_check_ignores_room_witness :
  (∃ st', on_reset_buzzer Backend "alice" "XYZ789" session_state
          = Done st' [to_room "XYZ789"
               (room_state (snapshot (heap session_state)
                  (Room.mk "XYZ789" 3 "Carol" [2%nat; 3%nat] false None [] 2000)))]
        ∧ rooms st' !! "XYZ789"
          = Some (Room.mk "XYZ789" 3 "Carol" [2%nat; 3%nat] false None [] 2000))
  ∧ (∃ st', on_delete_room "alice" "XYZ789" session_state
            = Done st' [to_room "XYZ789" room_deleted]
          ∧ rooms st' !! "XYZ789" = None).
Proof.
  refine (proj1 host_check_ignores_room Backend session_state "alice" "XYZ789"
    (Room.mk "XYZ789" 3 "Carol" [2%nat; 3%nat] true
       (Some (BuzzerEvent.mk "dan" "Dan" 2 3000))
       [BuzzerEvent.mk "dan" "Dan" 2 3000] 2000) _ _).
  - vm_compute. reflexivity.
  - vm_compute. reflexivity.
Defined.

(** ** Joining and rejoining *)

Section Directory.

Context {V : Type}.

Lemma map_get_set_eq k (v : V) m : map_get k (map_set k v m) = Some v.
Proof.
  induction m as [|[k' v'] m IH]; simpl.
  - by rewrite bool_decide_eq_true_2.
  - case_bool_decide as Hk; simpl.
    + by rewrite bool_decide_eq_true_2.
    + by rewrite bool_decide_eq_false_2.
Qed.

Lemma map_get_set_ne k k' (v : V) m :
  k' ≠ k → map_get k' (map_set k v m) = map_get k' m.
Proof.
  intros Hne. induction m as [|[k0 v0] m IH]; simpl.
  - by rewrite bool_decide_eq_false_2.
  - case_bool_decide as Hk; simpl.
    + subst k0. by rewrite !bool_decide_eq_false_2.
    + by rewrite IH.
Qed.

Lemma map_get_delete_eq k (m : list (string * V)) : map_get k (map_delete k m) = None.
Proof.
  induction m as [|[k' v'] m IH]; simpl; [done|].
  case_bool_decide as Hk; simpl; [done|]. by rewrite bool_decide_eq_false_2.
Qed.

Lemma map_get_delete_ne k k' (m : list (string * V)) :
  k' ≠ k → map_get k' (map_delete k m) = map_get k' m.
Proof.
  intros Hne. induction m as [|[k0 v0] m IH]; simpl; [done|].
  case_bool_decide as Hk; simpl.
  - subst k0. by rewrite bool_decide_eq_false_2.
  - by rewrite IH.
Qed.

End Directory.

Section Join.

(** [find] returns a player of the list that satisfies the predicate. *)
Lemma find_player_Some pred h refs l p :
  find_player pred h refs = Some (l, p) →
  l ∈ refs ∧ h !! l = Some p ∧ pred p = true.
Proof.
  induction refs as [|l' refs IH]; simpl; [done|].
  destruct (h !! l') as [p'|] eqn:Hl'.
  - destruct (pred p') eqn:Hp'.
    + intros [= <- <-]. split; [left|done].
    + intros (? & ? & ?)%IH. split; [by right|done].
  - intros (? & ? & ?)%IH. split; [by right|done].
Qed.

(** It returns one whenever some player of the list satisfies it. *)
Lemma find_player_None pred h refs p :
  find_player pred h refs = None →
  p ∈ omap (λ l : ref, h !! l) refs → pred p = false.
Proof.
  induction refs as [|l' refs IH]; simpl.
  - by intros _ ?%elem_of_nil.
  - destruct (h !! l') as [p'|] eqn:Hl'; simpl.
    + destruct (pred p') eqn:Hp'; [done|].
      intros Hnone [->|Hin]%elem_of_cons; [done|]. by apply IH.
    + exact IH.
Qed.

(** What a command does to the player store: nothing, or [join-room]
    allocates a player for a new name, or [join-room] rebinds the
    [socketId] of the player that has the name. *)
Lemma handle_heap b c st st' out :
  handle b c st = Done st' out →
  heap st' = heap st
  ∨ (∃ sid code playerName isHost maxArguments team host,
       c = join_room sid code playerName isHost maxArguments
       ∧ heap st' = heap st ++ [Player.mk sid playerName team host sid])
  ∨ (∃ sid code isHost maxArguments l p,
       c = join_room sid code (Player.name p) isHost maxArguments
       ∧ heap st !! l = Some p
       ∧ heap st' = <[l := Player.set_socketId sid p]> (heap st)).
Proof.
  destruct c as [sid tc hn now draws | sid rc pn ih ma | sid rc pid now | sid rc
                | sid rc | sid | sid rc | now]; simpl.
  - intros (c & _ & -> & _)%on_create_room_Done. by left.
  - unfold on_join_room. destruct (rooms st !! rc) as [room|] eqn:Hrc.
    + destruct (find_player _ _ _) as [[l p]|] eqn:Hfind.
      * intros [= <- _]. simpl. right. right.
        apply find_player_Some in Hfind as (_ & Hl & Hname).
        apply bool_decide_eq_true in Hname. subst pn.
        by exists sid, rc, ih, ma, l, p.
      * destruct (assignPlayerToTeam _ _ _) as [team|]; [|done].
        intros [= <- _]. simpl. right. left. by eexists sid, rc, pn, ih, ma, team, _.
    + intros [= <- _]. by left.
  - unfold on_press_buzzer. destruct (rooms st !! rc) as [room|].
    + destruct (Room.buzzerPressed room); [intros [= <- _]; by left|].
      destruct (find_player _ _ _) as [[l p]|]; intros [= <- _]; by left.
    + intros [= <- _]. by left.
  - unfold on_reset_buzzer. destruct (rooms st !! rc) as [room|].
    + destruct (is_host sid st); intros [= <- _]; by left.
    + destruct b; intros [= <- _]; by left.
  - unfold on_get_room. destruct (rooms st !! rc); intros [= <- _]; by left.
  - unfold on_disconnect. destruct (map_get sid (players st));
      intros [= <- _]; by left.
  - unfold on_delete_room. destruct (is_host sid st).
    + destruct (rooms st !! rc) as [room|]; intros [= <- _]; by left.
    + intros [= <- _]. by left.
  - intros [= <- _]. by left.
Qed.

End Join.

(** C8 — when [join-room] names an existing room and a name that a
    player of the room has, the first player of the room with that name is
    the one joined: its [id], [name], [team] and [isHost] stay, its
    [socketId] becomes the joining connection, the connection is bound to
    it in the directory, and nothing else changes — no room (so no player
    list), no other player, no other directory entry — and no player is
    allocated. *)
Theorem rejoin_rebinds_connection st sid code playerName isHost maxArguments room p0 :
  rooms st !! code = Some room →
  p0 ∈ room_players (heap st) room →
  Player.name p0 = playerName →
  ∃ l p st' out,
    on_join_room sid code playerName isHost maxArguments st = Done st' out
    ∧ l ∈ Room.players room ∧ heap st !! l = Some p ∧ Player.name p = playerName
    ∧ rooms st' = rooms st
    ∧ List.length (heap st') = List.length (heap st)
    ∧ heap st' !! l
      = Some (Player.mk (Player.id p) (Player.name p) (Player.team p)
                        (Player.isHost p) sid)
    ∧ (∀ l', l' ≠ l → heap st' !! l' = heap st !! l')
    ∧ map_get sid (players st') = Some (mkPlayerData l code)
    ∧ (∀ sid', sid' ≠ sid → map_get sid' (players st') = map_get sid' (players st)).
Proof.
  intros Hroom Hin Hname. unfold on_join_room. rewrite Hroom.
  destruct (find_player _ _ _) as [[l p]|] eqn:Hfind.
  - apply find_player_Some in Hfind as (Hl & Hp & Hpred).
    apply bool_decide_eq_true in Hpred.
    exists l, p. eexists _, _. split; [reflexivity|]. simpl.
    pose proof (lookup_lt_Some _ _ _ Hp) as Hlt.
    repeat split; try done.
    + apply length_insert.
    + by apply list_lookup_insert_eq.
    + intros l' Hne. by apply list_lookup_insert_ne.
    + apply map_get_set_eq.
    + intros sid' Hne. by apply map_get_set_ne.
  - eapply find_player_None in Hfind; [|exact Hin].
    apply bool_decide_eq_false in Hfind. done.
Qed.

Lemma rejoin_rebinds_connection_witness :
  ∃ l p st' out,
    on_join_room "zed" "ABC123" "Bob" true 100000 session_state = Done st' out
    ∧ l ∈ [0%nat; 1%nat]
    ∧ heap session_state !! l = Some p ∧ Player.name p = "Bob"
    ∧ rooms st' = rooms session_state
    ∧ List.length (heap st') = List.length (heap session_state)
    ∧ heap st' !! l
      = Some (Player.mk (Player.id p) (Player.name p) (Player.team p)
                        (Player.isHost p) "zed")
    ∧ (∀ l', l' ≠ l → heap st' !! l' = heap session_state !! l')
    ∧ map_get "zed" (players st') = Some (mkPlayerData l "ABC123")
    ∧ (∀ sid', sid' ≠ "zed" →
         map_get sid' (players st') = map_get sid' (players session_state)).
Proof.
  refine (rejoin_rebinds_connection session_state "zed" "ABC123" "Bob" true 100000
    (Room.mk "ABC123" 2 "Alice" [0%nat; 1%nat] false None [] 1000)
    (Player.mk "bob" "Bob" 2 false "bob") _ _ _).
  - vm_compute. reflexivity.
  - change (Player.mk "bob" "Bob" 2 false "bob"
            ∈ [Player.mk "alice" "Alice" 1 true "alice";
               Player.mk "bob" "Bob" 2 false "bob"]).
    apply list_elem_of_further, list_elem_of_here.
  - reflexivity.
Defined.

(** C9 — the [id] of a player need not differ from its [socketId]: after
    her first join, Alice has the identifier of her connection in both
    fields.  So it is not true that in every reachable state every player
    has an [id] different from its [socketId]. *)
Lemma player_id_is_socket_id :
  ¬ (∀ st l p,
       reachable Backend st → heap st !! l = Some p →
       Player.id p ≠ Player.socketId p).
Proof.
  intros Hdistinct.
  apply (Hdistinct session_state 0%nat (Player.mk "alice" "Alice" 1 true "alice")).
  - apply session_reachable.
  - vm_compute. reflexivity.
  - reflexivity.
Qed.

(** C9, as the code has it — no command rewrites the [id] of a player.
    A player is allocated by [join-room] only, with the identifier of the
    joining connection as its [id] and as its [socketId]; afterwards the
    [socketId] changes only by a [join-room] under the player's name, to
    the identifier of the connection that joins. *)
Theorem player_id_stable b c st st' out :
  handle b c st = Done st' out →
  (∀ l p, heap st !! l = Some p →
     ∃ p', heap st' !! l = Some p'
       ∧ Player.id p' = Player.id p
       ∧ (Player.socketId p' = Player.socketId p
          ∨ ∃ sid code isHost maxArguments,
              c = join_room sid code (Player.name p) isHost maxArguments
              ∧ Player.socketId p' = sid))
  ∧ (∀ l p', heap st !! l = None → heap st' !! l = Some p' →
       Player.socketId p' = Player.id p'
       ∧ ∃ code isHost maxArguments,
           c = join_room (Player.id p') code (Player.name p') isHost maxArguments).
Proof.
  intros [Hsame | [(sid & code & pn & ih & ma & team & host & -> & Hnew)
                  | (sid & code & ih & ma & l0 & p0 & -> & Hl0 & Hset)]]%handle_heap.
  - rewrite Hsame. split.
    + intros l p Hl. exists p. auto.
    + intros l p' Hnone Hsome. congruence.
  - rewrite Hnew. split.
    + intros l p Hl. exists p. split; [|auto].
      rewrite lookup_app_l; [done|]. by eapply lookup_lt_Some.
    + intros l p' Hnone Hsome. apply lookup_ge_None in Hnone.
      rewrite lookup_app_r in Hsome by done.
      destruct (l - List.length (heap st))%nat as [|k]; simpl in Hsome; [|done].
      injection Hsome as <-. simpl. eauto.
  - rewrite Hset. split.
    + intros l p Hl. destruct (decide (l = l0)) as [->|Hne].
      * exists (Player.set_socketId sid p0).
        rewrite list_lookup_insert_eq by (by eapply lookup_lt_Some).
        assert (p = p0) as -> by congruence.
        split; [done|]. split; [done|]. right. by exists sid, code, ih, ma.
      * exists p. rewrite list_lookup_insert_ne by done. auto.
    + intros l p' Hnone Hsome. apply lookup_ge_None in Hnone.
      apply lookup_lt_Some in Hsome. rewrite length_insert in Hsome. lia.
Qed.

Lemma player_id_stable_witness :
  ∃ p', heap rejoined !! 1%nat = Some p'
    ∧ Player.id p' = "bob"
    ∧ (Player.socketId p' = "bob"
       ∨ ∃ sid code isHost maxArguments,
           rejoin = join_room sid code "Bob" isHost maxArguments
           ∧ Player.socketId p' = sid).
Proof.
  assert (Hstep : handle Backend rejoin session_state = Done rejoined rejoined_out)
    by (vm_compute; reflexivity).
  exact (proj1 (player_id_stable Backend rejoin session_state rejoined rejoined_out Hstep)
           1%nat (Player.mk "bob" "Bob" 2 false "bob") eq_refl).
Defined.


(** ** References stay valid *)

Section References.

Lemma map_get_delete_Some {V} k k' (m : list (string * V)) v :
  map_get k' (map_delete k m) = Some v → map_get k' m = Some v.
Proof.
  destruct (decide (k' = k)) as [->|Hne].
  - by rewrite map_get_delete_eq.
  - by rewrite map_get_delete_ne.
Qed.

Lemma drop_entry_get h dir p sid d :
  map_get sid (drop_entry h dir p) = Some d → map_get sid dir = Some d.
Proof.
  unfold drop_entry. destruct (List.find _ dir) as [e|]; [|done].
  apply map_get_delete_Some.
Qed.

Lemma foldl_drop_entry_get h ps : ∀ dir sid d,
  map_get sid (foldl (drop_entry h) dir ps) = Some d → map_get sid dir = Some d.
Proof.
  induction ps as [|p ps IH]; intros dir sid d; simpl; [done|].
  intros Hget%IH. by eapply drop_entry_get.
Qed.

(** The [None] branches of the look-ups in the player store are never
    taken: a command keeps every reference inside the store. *)
Lemma handle_refs_valid b c st st' out :
  refs_valid st → handle b c st = Done st' out → refs_valid st'.
Proof.
  intros [Hrooms Hdir].
  destruct c as [sid tc hn now draws | sid rc pn ih ma | sid rc pid now | sid rc
                | sid rc | sid | sid rc | now]; simpl.
  - intros (c & _ & -> & _)%on_create_room_Done. split; simpl; [|done].
    intros code r l. destruct (decide (c = code)) as [->|Hne].
    + rewrite lookup_insert_eq. intros [= <-]. simpl. by intros ?%elem_of_nil.
    + rewrite lookup_insert_ne by done. apply Hrooms.
  - unfold on_join_room. destruct (rooms st !! rc) as [room|] eqn:Hrc.
    + destruct (find_player _ _ _) as [[l0 p0]|] eqn:Hfind.
      * intros [= <- _]. apply find_player_Some in Hfind as (_ & Hl0 & _).
        apply lookup_lt_Some in Hl0.
        split; simpl; setoid_rewrite length_insert; [done|].
        intros sid' d. destruct (decide (sid' = sid)) as [->|Hne].
        -- rewrite map_get_set_eq. by intros [= <-].
        -- rewrite map_get_set_ne by done. apply Hdir.
      * destruct (assignPlayerToTeam _ _ _) as [team|]; [|done].
        intros [= <- _]. split; simpl; setoid_rewrite length_app; simpl.
        -- intros code r l. destruct (decide (rc = code)) as [->|Hne].
           ++ rewrite lookup_insert_eq. intros [= <-]. simpl.
              intros [Hl|Hl%list_elem_of_singleton]%elem_of_app; [|lia].
              specialize (Hrooms _ _ _ Hrc Hl). lia.
           ++ rewrite lookup_insert_ne by done. intros Hr Hl.
              specialize (Hrooms _ _ _ Hr Hl). lia.
        -- intros sid' d. destruct (decide (sid' = sid)) as [->|Hne].
           ++ rewrite map_get_set_eq. intros [= <-]. simpl. lia.
           ++ rewrite map_get_set_ne by done. intros Hd%Hdir. lia.
    + by intros [= <- _].
  - unfold on_press_buzzer. destruct (rooms st !! rc) as [room|] eqn:Hrc.
    + destruct (Room.buzzerPressed room); [by intros [= <- _]|].
      destruct (find_player _ _ _) as [[l0 p0]|]; [|by intros [= <- _]].
      intros [= <- _]. split; simpl; [|done].
      intros code r l. destruct (decide (rc = code)) as [->|Hne].
      * rewrite lookup_insert_eq. intros [= <-]. simpl. by apply (Hrooms _ _ _ Hrc).
      * rewrite lookup_insert_ne by done. apply Hrooms.
    + by intros [= <- _].
  - unfold on_reset_buzzer. destruct (rooms st !! rc) as [room|] eqn:Hrc.
    + destruct (is_host sid st); [|by intros [= <- _]].
      intros [= <- _]. split; simpl; [|done].
      intros code r l. destruct (decide (rc = code)) as [->|Hne].
      * rewrite lookup_insert_eq. intros [= <-]. simpl. by apply (Hrooms _ _ _ Hrc).
      * rewrite lookup_insert_ne by done. apply Hrooms.
    + destruct b; by intros [= <- _].
  - unfold on_get_room. destruct (rooms st !! rc); by intros [= <- _].
  - unfold on_disconnect. destruct (map_get sid (players st)); [|by intros [= <- _]].
    intros [= <- _]. split; simpl; [done|].
    intros sid' d Hget%map_get_delete_Some. by apply Hdir in Hget.
  - unfold on_delete_room. destruct (is_host sid st); [|by intros [= <- _]].
    destruct (rooms st !! rc) as [room|]; [|by intros [= <- _]].
    intros [= <- _]. split; simpl.
    + intros code r l. destruct (decide (rc = code)) as [->|Hne].
      * by rewrite lookup_delete_eq.
      * rewrite lookup_delete_ne by done. apply Hrooms.
    + intros sid' d Hget%foldl_drop_entry_get. by apply Hdir in Hget.
  - intros [= <- _]. split; simpl; [|done].
    intros code r l. pose proof (cleanup_lookup now st code) as Hlookup.
    simpl in Hlookup. rewrite Hlookup.
    destruct (rooms st !! code) as [room|] eqn:Hc; [|done].
    destruct (expired now room); [done|]. intros [= <-]. by apply (Hrooms _ _ _ Hc).
Qed.

Lemma reachable_refs_valid b st : reachable b st → refs_valid st.
Proof.
  induction 1 as [|st c st' out _ IH Hstep].
  - split; simpl.
    + intros code r l. by rewrite lookup_empty.
    + done.
  - by eapply handle_refs_valid.
Qed.

End References.

(** ** The scenario of the specification *)

(** A room with two teams; Alice joins and is put on team 1, Bob on team 2;
    Bob buzzes and wins, the press of Alice that follows is dropped; the
    reset by Alice, the host, reopens the room. *)
Example two_team_round :
  ∃ st out st' out',
    run Bundled
        [ create_room "c0" 2 "Alice" 1000 [[10; 11; 12; 1; 2; 3; 7; 7]%nat];
          join_room "alice" "ABC123" "Alice" true 100000;
          join_room "bob" "ABC123" "Bob" false 100000;
          press_buzzer "bob" "ABC123" "bob" 2000;
          press_buzzer "alice" "ABC123" "alice" 2001 ] initial
    = Some (st, out)
    ∧ heap st = [Player.mk "alice" "Alice" 1 true "alice";
                 Player.mk "bob" "Bob" 2 false "bob"]
    ∧ rooms st !! "ABC123"
      = Some (Room.mk "ABC123" 2 "Alice" [0%nat; 1%nat] true
                (Some (BuzzerEvent.mk "bob" "Bob" 2 2000))
                [BuzzerEvent.mk "bob" "Bob" 2 2000] 1000)
    ∧ handle Bundled (reset_buzzer "alice" "ABC123") st = Done st' out'
    ∧ rooms st' !! "ABC123"
      = Some (Room.mk "ABC123" 2 "Alice" [0%nat; 1%nat] false None [] 1000).
Proof.
  eexists _, _, _, _.
  split; [vm_compute; reflexivity|].
  split; [reflexivity|].
  split; [vm_compute; reflexivity|].
  split; [vm_compute; reflexivity|].
  vm_compute. reflexivity.
Qed.

(** * Further properties of the server *)

(** ** Players seen through the store *)

Section Store.

Lemma omap_lookup_app (h : list Player.t) p (refs : list ref) :
  Forall (λ l, (l < List.length h)%nat) refs →
  omap (λ l : ref, (h ++ [p]) !! l) refs = omap (λ l : ref, h !! l) refs.
Proof.
  induction 1 as [|l refs Hl _ IH]; [done|].
  cbn [omap list_omap]. rewrite lookup_app_l by done. by rewrite IH.
Qed.

Lemma omap_lookup_snoc (h : list Player.t) p (refs : list ref) :
  Forall (λ l, (l < List.length h)%nat) refs →
  omap (λ l : ref, (h ++ [p]) !! l) (refs ++ [List.length h])
  = omap (λ l : ref, h !! l) refs ++ [p].
Proof.
  intros Hrefs. rewrite omap_app, omap_lookup_app by done. f_equal.
  cbn [omap list_omap]. by rewrite list_lookup_middle.
Qed.

Lemma omap_lookup_insert (h : list Player.t) l p p' (refs : list ref) :
  h !! l = Some p → identity p' = identity p →
  identity <$> omap (λ l' : ref, <[l := p']> h !! l') refs
  = identity <$> omap (λ l' : ref, h !! l') refs.
Proof.
  intros Hl Hid. induction refs as [|l' refs IH]; [done|].
  cbn [omap list_omap]. unfold ref in *. destruct (decide (l' = l)) as [->|Hne].
  - rewrite list_lookup_insert_eq by (by eapply lookup_lt_Some).
    rewrite Hl, !fmap_cons. by rewrite Hid, IH.
  - rewrite list_lookup_insert_ne by done.
    destruct (h !! l'); [|done]. rewrite !fmap_cons. by rewrite IH.
Qed.

Lemma omap_lookup_length (h : list Player.t) (refs : list ref) :
  Forall (λ l, (l < List.length h)%nat) refs →
  List.length (omap (λ l : ref, h !! l) refs) = List.length refs.
Proof.
  induction 1 as [|l refs Hl _ IH]; [done|].
  cbn [omap list_omap]. unfold ref in *.
  destruct (lookup_lt_is_Some_2 h l Hl) as [p ->].
  simpl. by rewrite IH.
Qed.

Lemma refs_valid_room st code r :
  refs_valid st → rooms st !! code = Some r →
  Forall (λ l, (l < List.length (heap st))%nat) (Room.players r).
Proof. intros [Hrooms _] Hr. apply Forall_forall. intros l Hl. by eapply Hrooms. Qed.

Lemma identity_set_socketId sid p : identity (Player.set_socketId sid p) = identity p.
Proof. done. Qed.

End Store.

(** ** What a command does to one room *)

Section RoomStep.

(** After a command, a room of the registry is either a room just created,
    still without players, or a room that was there: then its code, team
    count, host name and creation time are the same; its players are the
    same, with the same id, name, team and host flag, or [join-room] under
    a name new to the room appended one player, on the team chosen by
    [assignPlayerToTeam]; and its winner is the same, or cleared, or a
    player of the room. *)
Lemma handle_room b c st st' out code r' :
  refs_valid st →
  handle b c st = Done st' out →
  rooms st' !! code = Some r' →
  (rooms st !! code = None
   ∧ ∃ sid teamCount hostName now draws,
       c = create_room sid teamCount hostName now draws
       ∧ r' = Room.new code teamCount hostName now)
  ∨ (∃ r, rooms st !! code = Some r
       ∧ Room.code r' = Room.code r
       ∧ Room.teamCount r' = Room.teamCount r
       ∧ Room.hostName r' = Room.hostName r
       ∧ Room.createdAt r' = Room.createdAt r
       ∧ ((Room.players r' = Room.players r
           ∧ identity <$> room_players (heap st') r'
             = identity <$> room_players (heap st) r)
          ∨ (∃ sid playerName isHost maxArguments team,
               c = join_room sid code playerName isHost maxArguments
               ∧ assignPlayerToTeam maxArguments (heap st) r = Some team
               ∧ (∀ p, p ∈ room_players (heap st) r → Player.name p ≠ playerName)
               ∧ Room.players r' = Room.players r ++ [List.length (heap st)]
               ∧ room_players (heap st') r'
                 = room_players (heap st) r
                   ++ [Player.mk sid playerName team
                         (isHost || bool_decide (List.length (Room.players r) = 0%nat))
                         sid]))
       ∧ (Room.firstBuzzer r' = Room.firstBuzzer r
          ∨ Room.firstBuzzer r' = None
          ∨ ∃ p now,
              p ∈ room_players (heap st) r
              ∧ Room.firstBuzzer r'
                = Some (BuzzerEvent.mk (Player.id p) (Player.name p) (Player.team p) now))).
Proof.
  intros Hvalid.
  assert (Hkeep : ∀ r, rooms st !! code = Some r →
    ∃ r0, rooms st !! code = Some r0
      ∧ Room.code r = Room.code r0 ∧ Room.teamCount r = Room.teamCount r0
      ∧ Room.hostName r = Room.hostName r0 ∧ Room.createdAt r = Room.createdAt r0
      ∧ ((Room.players r = Room.players r0
          ∧ identity <$> room_players (heap st) r = identity <$> room_players (heap st) r0)
         ∨ (∃ sid playerName isHost maxArguments team,
              c = join_room sid code playerName isHost maxArguments
              ∧ assignPlayerToTeam maxArguments (heap st) r0 = Some team
              ∧ (∀ p, p ∈ room_players (heap st) r0 → Player.name p ≠ playerName)
              ∧ Room.players r = Room.players r0 ++ [List.length (heap st)]
              ∧ room_players (heap st) r
                = room_players (heap st) r0
                  ++ [Player.mk sid playerName team
                        (isHost || bool_decide (List.length (Room.players r0) = 0%nat))
                        sid]))
      ∧ (Room.firstBuzzer r = Room.firstBuzzer r0
         ∨ Room.firstBuzzer r = None
         ∨ ∃ p now,
             p ∈ room_players (heap st) r0
             ∧ Room.firstBuzzer r
               = Some (BuzzerEvent.mk (Player.id p) (Player.name p) (Player.team p) now))).
  { intros r Hr. exists r. repeat split; auto. }
  destruct c as [sid tc hn now draws | sid rc pn ih ma | sid rc pid now | sid rc
                | sid rc | sid | sid rc | now]; simpl.
  - intros (c & Hfree & -> & _)%on_create_room_Done. simpl.
    destruct (decide (c = code)) as [->|Hne].
    + rewrite lookup_insert_eq. intros [= <-]. left. split; [done|].
      by exists sid, tc, hn, now, draws.
    + rewrite lookup_insert_ne by done. intros Hr. right. by apply Hkeep.
  - unfold on_join_room. destruct (rooms st !! rc) as [room|] eqn:Hrc.
    + destruct (find_player _ _ _) as [[l p]|] eqn:Hfind.
      * intros [= <- _]. simpl. intros Hr. right. exists r'.
        apply find_player_Some in Hfind as (_ & Hl & _).
        repeat split; auto. left. split; [done|].
        unfold room_players. by eapply omap_lookup_insert.
      * destruct (assignPlayerToTeam _ _ _) as [team|] eqn:Hteam; [|done].
        intros [= <- _]. simpl.
        destruct (decide (rc = code)) as [->|Hne].
        -- rewrite lookup_insert_eq. intros [= <-]. right. exists room.
           repeat split; auto. right. exists sid, pn, ih, ma, team.
           split; [done|]. split; [done|]. split.
           { intros p0 Hp0 Hname.
             pose proof (find_player_None _ _ _ _ Hfind Hp0) as Hpred. simpl in Hpred.
             apply bool_decide_eq_false in Hpred. done. }
           split; [done|]. unfold room_players. simpl.
           apply omap_lookup_snoc. by eapply refs_valid_room.
        -- rewrite lookup_insert_ne by done. intros Hr. right. exists r'.
           repeat split; auto. left. split; [done|].
           unfold room_players. f_equal.
           apply omap_lookup_app. by eapply refs_valid_room.
    + intros [= <- _] Hr. right. by apply Hkeep.
  - unfold on_press_buzzer. destruct (rooms st !! rc) as [room|] eqn:Hrc.
    + destruct (Room.buzzerPressed room) eqn:Hopen.
      * intros [= <- _] Hr. right. by apply Hkeep.
      * destruct (find_player _ _ _) as [[l p]|] eqn:Hfind.
        -- intros [= <- _]. simpl.
           destruct (decide (rc = code)) as [->|Hne].
           ++ rewrite lookup_insert_eq. intros [= <-]. right. exists room.
              repeat split; auto. right. right. exists p, now. split; [|done].
              apply find_player_Some in Hfind as (Hl & Hp & _).
              apply list_elem_of_omap. by exists l.
           ++ rewrite lookup_insert_ne by done. intros Hr. right. by apply Hkeep.
        -- intros [= <- _] Hr. right. by apply Hkeep.
    + intros [= <- _] Hr. right. by apply Hkeep.
  - unfold on_reset_buzzer. destruct (rooms st !! rc) as [room|] eqn:Hrc.
    + destruct (is_host sid st).
      * intros [= <- _]. simpl.
        destruct (decide (rc = code)) as [->|Hne].
        -- rewrite lookup_insert_eq. intros [= <-]. right. exists room.
           repeat split; auto.
        -- rewrite lookup_insert_ne by done. intros Hr. right. by apply Hkeep.
      * intros [= <- _] Hr. right. by apply Hkeep.
    + destruct b; intros [= <- _] Hr; right; by apply Hkeep.
  - unfold on_get_room. destruct (rooms st !! rc); intros [= <- _] Hr;
      right; by apply Hkeep.
  - unfold on_disconnect. destruct (map_get sid (players st));
      intros [= <- _] Hr; right; by apply Hkeep.
  - unfold on_delete_room. destruct (is_host sid st).
    + destruct (rooms st !! rc) as [room|] eqn:Hrc.
      * intros [= <- _]. simpl.
        destruct (decide (rc = code)) as [->|Hne].
        -- by rewrite lookup_delete_eq.
        -- rewrite lookup_delete_ne by done. intros Hr. right. by apply Hkeep.
      * intros [= <- _] Hr. right. by apply Hkeep.
    + intros [= <- _] Hr. right. by apply Hkeep.
  - intros [= <- _]. rewrite cleanup_lookup.
    destruct (rooms st !! code) as [room|] eqn:Hc; [|done].
    destruct (expired now room); [done|]. intros [= <-]. right.
    by apply Hkeep.
Qed.

End RoomStep.

(** ** Invariants of the rooms of a reachable state *)

Section Rosters.

Lemma identity_fmap {A} (f : string * string * Z * bool → A) (g : Player.t → A)
    (ps ps' : list Player.t) :
  (∀ p, g p = f (identity p)) →
  identity <$> ps' = identity <$> ps → g <$> ps' = g <$> ps.
Proof.
  intros Hg Hid.
  assert (Hcomp : ∀ l : list Player.t, g <$> l = f <$> (identity <$> l)).
  { intros l. rewrite <- list_fmap_compose. apply list_fmap_ext. intros _ p _. apply Hg. }
  by rewrite !Hcomp, Hid.
Qed.

Lemma identity_names (ps ps' : list Player.t) :
  identity <$> ps' = identity <$> ps → Player.name <$> ps' = Player.name <$> ps.
Proof. by apply (identity_fmap (λ i, i.1.1.2)). Qed.

Lemma identity_teams (ps ps' : list Player.t) :
  identity <$> ps' = identity <$> ps → Player.team <$> ps' = Player.team <$> ps.
Proof. by apply (identity_fmap (λ i, i.1.2)). Qed.

Lemma identity_hosts (ps ps' : list Player.t) :
  identity <$> ps' = identity <$> ps → Player.isHost <$> ps' = Player.isHost <$> ps.
Proof. by apply (identity_fmap (λ i, i.2)). Qed.

Lemma identity_elem (ps ps' : list Player.t) p :
  identity <$> ps' = identity <$> ps → p ∈ ps →
  ∃ p', p' ∈ ps' ∧ identity p' = identity p.
Proof.
  intros Hid Hp. apply (list_elem_of_fmap_2 identity) in Hp.
  rewrite <- Hid in Hp. apply list_elem_of_fmap in Hp as (p' & Heq & Hp').
  by exists p'.
Qed.

(** Induction over the rosters of the reachable states: a property of the
    team count and of the players of a room holds in every reachable state
    when it holds of a room without players, does not depend on the
    connections of the players, and is kept when [join-room] appends the
    player it builds. *)
Lemma reachable_roster_ind b (P : Z → list Player.t → Prop) :
  (∀ teamCount, P teamCount []) →
  (∀ teamCount ps ps',
     identity <$> ps' = identity <$> ps → P teamCount ps → P teamCount ps') →
  (∀ h room sid playerName isHost maxArguments team,
     List.length (room_players h room) = List.length (Room.players room) →
     P (Room.teamCount room) (room_players h room) →
     assignPlayerToTeam maxArguments h room = Some team →
     (∀ p, p ∈ room_players h room → Player.name p ≠ playerName) →
     P (Room.teamCount room)
       (room_players h room
        ++ [Player.mk sid playerName team
              (isHost || bool_decide (List.length (Room.players room) = 0%nat)) sid])) →
  ∀ st, reachable b st →
  ∀ code r, rooms st !! code = Some r → P (Room.teamCount r) (room_players (heap st) r).
Proof.
  intros Hnew Hsame Hjoin st Hreach.
  induction Hreach as [|st c st' out Hst IH Hstep]; intros code r' Hr'.
  - simpl in Hr'. by rewrite lookup_empty in Hr'.
  - pose proof (reachable_refs_valid _ _ Hst) as Hvalid.
    destruct (handle_room _ _ _ _ _ _ _ Hvalid Hstep Hr')
      as [(_ & sid & tc & hn & now & draws & _ & ->)
         | (r & Hr & _ & Htc & _ & _ & Hplayers & _)].
    + apply Hnew.
    + rewrite Htc.
      destruct Hplayers as [[_ Hid] | (sid & pn & ih & ma & team & _ & Hteam & Hfresh & _ & ->)].
      * eapply Hsame; [exact Hid|]. by eapply IH.
      * eapply Hjoin; [|by eapply IH|exact Hteam|done].
        apply omap_lookup_length. by eapply refs_valid_room.
Qed.

End Rosters.

(** X1 — in every reachable state the players of a room have pairwise
    different names: [join-room] appends a player only under a name that
    no player of the room has. *)
Theorem reachable_names_unique b st code r :
  reachable b st → rooms st !! code = Some r →
  NoDup (Player.name <$> room_players (heap st) r).
Proof.
  intros Hreach. revert code r.
  apply (reachable_roster_ind b (λ _ ps, NoDup (Player.name <$> ps))); [| | |done].
  - intros _. constructor.
  - intros _ ps ps' Hid Hps. by rewrite (identity_names _ _ Hid).
  - intros h room sid pn ih ma team _ Hps _ Hfresh.
    rewrite fmap_app. apply NoDup_app. split; [done|]. split.
    + intros name (p & -> & Hp)%list_elem_of_fmap [Heq|Hnil]%elem_of_cons.
      * by apply (Hfresh p Hp).
      * by apply elem_of_nil in Hnil.
    + apply NoDup_singleton.
Qed.

Lemma reachable_names_unique_witness :
  NoDup (Player.name <$> room_players (heap session_state) room_xyz).
Proof.
  apply (reachable_names_unique Backend session_state "XYZ789" room_xyz).
  - apply session_reachable.
  - vm_compute. reflexivity.
Defined.

(** X2 — in every reachable state the first player of a room that has
    players is a host: the first to join an empty room gets the host flag
    whatever the request says, and the flag is never cleared. *)
Theorem reachable_first_player_hosts b st code r p :
  reachable b st → rooms st !! code = Some r →
  head (room_players (heap st) r) = Some p → Player.isHost p = true.
Proof.
  intros Hreach Hr. revert p. revert code r Hr.
  apply (reachable_roster_ind b
           (λ _ ps, ∀ p, head ps = Some p → Player.isHost p = true)); [| | |done].
  - intros _ p. done.
  - intros _ ps ps' Hid Hps p' Hp'.
    apply identity_hosts in Hid.
    destruct ps' as [|q' ps'], ps as [|q ps]; simpl in *; try done.
    injection Hp' as ->. injection Hid as Hq _. rewrite Hq. by apply Hps.
  - intros h room sid pn ih ma team Hlen Hps _ _ p.
    destruct (room_players h room) as [|q ps] eqn:Hroster; simpl.
    + intros [= <-]. simpl. simpl in Hlen. rewrite <- Hlen.
      by rewrite orb_true_r.
    + intros [= <-]. by apply Hps.
Qed.

Lemma reachable_first_player_hosts_witness :
  Player.isHost (Player.mk "carol" "Carol" 1 true "carol") = true.
Proof.
  apply (reachable_first_player_hosts Bundled session_state "XYZ789" room_xyz).
  - apply session_reachable.
  - vm_compute. reflexivity.
  - vm_compute. reflexivity.
Defined.

(** X3 — in every reachable state a room is registered under its own
    code. *)
Theorem reachable_room_code b st code r :
  reachable b st → rooms st !! code = Some r → Room.code r = code.
Proof.
  intros Hreach. revert code r.
  induction Hreach as [|st c st' out Hst IH Hstep]; intros code r' Hr'.
  - simpl in Hr'. by rewrite lookup_empty in Hr'.
  - pose proof (reachable_refs_valid _ _ Hst) as Hvalid.
    destruct (handle_room _ _ _ _ _ _ _ Hvalid Hstep Hr')
      as [(_ & sid & tc & hn & now & draws & _ & ->) | (r & Hr & Hcode & _)].
    + done.
    + rewrite Hcode. by apply IH.
Qed.

Lemma reachable_room_code_witness : Room.code room_xyz = "XYZ789".
Proof.
  apply (reachable_room_code Backend session_state "XYZ789" room_xyz).
  - apply session_reachable.
  - vm_compute. reflexivity.
Defined.

(** ** Teams are handed out in turn *)

Section Turns.

Lemma count_on_app ps qs u : count_on (ps ++ qs) u = count_on ps u + count_on qs u.
Proof. unfold count_on. rewrite filter_app, length_app. lia. Qed.

Lemma count_on_single p u :
  count_on [p] u = if bool_decide (Player.team p = u) then 1 else 0.
Proof. rewrite count_on_cons. unfold count_on. simpl. lia. Qed.

(** Dividing the number of players by the number of teams, before and
    after one more player. *)
Lemma turn_step teamCount n u :
  1 ≤ teamCount → 1 ≤ u ≤ teamCount → 0 ≤ n →
  (n + 1) / teamCount + (if bool_decide (u ≤ (n + 1) mod teamCount) then 1 else 0)
  = n / teamCount + (if bool_decide (u ≤ n mod teamCount) then 1 else 0)
    + (if bool_decide (n mod teamCount + 1 = u) then 1 else 0).
Proof.
  intros Htc Hu Hn.
  pose proof (Z.div_mod n teamCount ltac:(lia)) as Hdiv.
  pose proof (Z.mod_pos_bound n teamCount ltac:(lia)) as Hmod.
  set (q := n / teamCount) in *. set (r := n mod teamCount) in *.
  destruct (decide (r + 1 < teamCount)) as [Hlt|Hge].
  - rewrite <- (Z.div_unique (n + 1) teamCount q (r + 1)) by lia.
    rewrite <- (Z.mod_unique (n + 1) teamCount q (r + 1)) by lia.
    repeat case_bool_decide; lia.
  - rewrite <- (Z.div_unique (n + 1) teamCount (q + 1) 0) by lia.
    rewrite <- (Z.mod_unique (n + 1) teamCount (q + 1) 0) by lia.
    repeat case_bool_decide; lia.
Qed.

(** The size of team [u] when the teams were handed out in turn. *)
Lemma count_turn teamCount (ps : list Player.t) u :
  1 ≤ teamCount → 1 ≤ u ≤ teamCount →
  Player.team <$> ps = turn_team teamCount <$> seq 0 (List.length ps) →
  count_on ps u
  = Z.of_nat (List.length ps) / teamCount
    + (if bool_decide (u ≤ Z.of_nat (List.length ps) mod teamCount) then 1 else 0).
Proof.
  intros Htc Hu. induction ps as [|p ps IH] using rev_ind; intros Hteams.
  - simpl. rewrite Z.div_0_l, Z.mod_0_l by lia.
    rewrite bool_decide_eq_false_2 by lia. done.
  - rewrite length_app in *. simpl in *.
    replace (List.length ps + 1)%nat with (S (List.length ps)) in * by lia.
    rewrite seq_S, !fmap_app in Hteams. simpl in Hteams.
    apply app_inj_tail in Hteams as [Hps Hp].
    rewrite count_on_app, count_on_single, (IH Hps), Hp.
    replace (Z.of_nat (S (List.length ps))) with (Z.of_nat (List.length ps) + 1) by lia.
    rewrite turn_step by lia. done.
Qed.

(** The team that [assignPlayerToTeam] returns is determined by the two
    properties of its result. *)
Lemma assignPlayerToTeam_unique maxArguments h room team t :
  assignPlayerToTeam maxArguments h room = Some team →
  1 ≤ Room.teamCount room →
  1 ≤ t ≤ Room.teamCount room →
  (∀ u, 1 ≤ u ≤ Room.teamCount room →
     count_on (room_players h room) t ≤ count_on (room_players h room) u) →
  (∀ u, 1 ≤ u < t →
     count_on (room_players h room) t < count_on (room_players h room) u) →
  team = t.
Proof.
  intros Hteam Hn Ht Hmin Hfirst.
  pose proof (assignPlayerToTeam_Some _ _ _ _ Hteam) as (_ & Hlength & Hargs).
  rewrite assignPlayerToTeam_runs in Hteam by (done || lia).
  injection Hteam as <-. set (n := Room.teamCount room) in *.
  destruct (team_counts_spec h room) as [Hlen Hget]; [lia|]. fold n in Hlen, Hget.
  destruct (Math_min_is_Some (team_counts h room)) as [m Hm].
  { intros Hnil. rewrite Hnil in Hlen. simpl in Hlen. lia. }
  rewrite Hm. destruct (Math_min_spec _ _ Hm) as [Hin Hle].
  destruct (indexOf_from_spec m (team_counts h room) 0 Hin) as (k & Hk & Hslot & Hk_first).
  unfold indexOf. rewrite Hk.
  pose proof (lookup_lt_Some _ _ _ Hslot) as Hlt. rewrite Hlen in Hlt.
  assert (Hslot_t : team_counts h room !! Z.to_nat (t - 1)
                    = Some (count_on (room_players h room) t)).
  { rewrite Hget by lia. do 2 f_equal. lia. }
  assert (Hm_k : m = count_on (room_players h room) (Z.of_nat k + 1)).
  { rewrite Hget in Hslot by done. by injection Hslot. }
  assert (Hm_t : m = count_on (room_players h room) t).
  { assert (m ≤ count_on (room_players h room) t).
    { apply Hle, list_elem_of_lookup. eauto. }
    assert (count_on (room_players h room) t ≤ m).
    { rewrite Hm_k. apply Hmin. lia. }
    lia. }
  destruct (Z.lt_trichotomy (Z.of_nat k + 1) t) as [Hlow|[Heq|Hhigh]].
  - specialize (Hfirst (Z.of_nat k + 1) ltac:(lia)). lia.
  - lia.
  - exfalso. apply (Hk_first (Z.to_nat (t - 1)) _ ltac:(lia) Hslot_t). by rewrite Hm_t.
Qed.

End Turns.

(** In a reachable state the teams of the players of a room, in join
    order, are the teams handed out in turn. *)
Lemma reachable_roster_turns b st code r :
  reachable b st → rooms st !! code = Some r →
  1 ≤ Room.teamCount r →
  Player.team <$> room_players (heap st) r
  = turn_team (Room.teamCount r) <$> seq 0 (List.length (room_players (heap st) r)).
Proof.
  intros Hreach. revert code r.
  apply (reachable_roster_ind b
           (λ tc ps, 1 ≤ tc →
              Player.team <$> ps = turn_team tc <$> seq 0 (List.length ps)));
    [| | |done].
  - done.
  - intros tc ps ps' Hid Hps Htc. rewrite (identity_teams _ _ Hid), (Hps Htc).
    by rewrite <- (length_fmap identity ps'), Hid, length_fmap.
  - intros h room sid pn ih ma team _ Hps Hteam _ Htc. specialize (Hps Htc).
    rewrite length_app. simpl.
    replace (List.length (room_players h room) + 1)%nat
      with (S (List.length (room_players h room))) by lia.
    rewrite seq_S, !fmap_app, <- Hps. simpl. do 2 f_equal.
    pose proof (Z.mod_pos_bound (Z.of_nat (List.length (room_players h room)))
                  (Room.teamCount room) ltac:(lia)) as Hmod.
    unfold turn_team.
    apply (assignPlayerToTeam_unique ma h room); [done|done|lia| |].
    + intros u Hu. rewrite !(count_turn (Room.teamCount room)) by (done || lia).
      repeat case_bool_decide; lia.
    + intros u Hu. rewrite !(count_turn (Room.teamCount room)) by (done || lia).
      repeat case_bool_decide; lia.
Qed.

(** X4 — in every reachable state, in a room with at least one team, the
    players got their teams in turn: the [i]-th player to have joined,
    counting from 0, is on team [(i mod teamCount) + 1]. *)
Theorem reachable_teams_in_turn b st code r i p :
  reachable b st → rooms st !! code = Some r →
  1 ≤ Room.teamCount r →
  room_players (heap st) r !! i = Some p →
  Player.team p = Z.of_nat i mod Room.teamCount r + 1.
Proof.
  intros Hreach Hr Htc Hp.
  pose proof (reachable_roster_turns b st code r Hreach Hr Htc) as Hturn.
  apply (f_equal (λ l, l !! i)) in Hturn. rewrite !list_lookup_fmap, Hp in Hturn.
  simpl in Hturn. destruct (seq 0 _ !! i) as [j|] eqn:Hj; [|done].
  apply lookup_seq in Hj as [-> _]. by injection Hturn.
Qed.

Lemma reachable_teams_in_turn_witness :
  Player.team (Player.mk "dan" "Dan" 2 false "dan")
  = Z.of_nat 1 mod Room.teamCount room_xyz + 1.
Proof.
  apply (reachable_teams_in_turn Backend session_state "XYZ789" room_xyz 1
           (Player.mk "dan" "Dan" 2 false "dan")).
  - apply session_reachable.
  - vm_compute. reflexivity.
  - vm_compute. discriminate.
  - vm_compute. reflexivity.
Defined.

(** X5 — in every reachable state, in a room with at least one team,
    every player is on a team between 1 and [teamCount], and of two teams
    the one with the lower number has as many players as the other or one
    more: the teams are balanced. *)
Theorem reachable_teams_balanced b st code r :
  reachable b st → rooms st !! code = Some r →
  1 ≤ Room.teamCount r →
  (∀ p, p ∈ room_players (heap st) r → 1 ≤ Player.team p ≤ Room.teamCount r)
  ∧ (∀ u v, 1 ≤ u → u ≤ v → v ≤ Room.teamCount r →
       count_on (room_players (heap st) r) v ≤ count_on (room_players (heap st) r) u
       ∧ count_on (room_players (heap st) r) u
         ≤ count_on (room_players (heap st) r) v + 1).
Proof.
  intros Hreach Hr Htc.
  pose proof (reachable_roster_turns b st code r Hreach Hr Htc) as Hturn.
  split.
  - intros p [i Hp]%list_elem_of_lookup.
    apply (f_equal (λ l, l !! i)) in Hturn. rewrite !list_lookup_fmap, Hp in Hturn.
    simpl in Hturn. destruct (seq 0 _ !! i) as [j|]; [|done].
    injection Hturn as ->. unfold turn_team.
    pose proof (Z.mod_pos_bound (Z.of_nat j) (Room.teamCount r) ltac:(lia)). lia.
  - intros u v Hu Huv Hv.
    rewrite !(count_turn (Room.teamCount r)) by (done || lia).
    repeat case_bool_decide; lia.
Qed.

Lemma reachable_teams_balanced_witness :
  (∀ p, p ∈ room_players (heap session_state) room_xyz →
     1 ≤ Player.team p ≤ Room.teamCount room_xyz)
  ∧ (∀ u v, 1 ≤ u → u ≤ v → v ≤ Room.teamCount room_xyz →
       count_on (room_players (heap session_state) room_xyz) v
       ≤ count_on (room_players (heap session_state) room_xyz) u
       ∧ count_on (room_players (heap session_state) room_xyz) u
         ≤ count_on (room_players (heap session_state) room_xyz) v + 1).
Proof.
  apply (reachable_teams_balanced Backend session_state "XYZ789" room_xyz).
  - apply session_reachable.
  - vm_compute. reflexivity.
  - vm_compute. discriminate.
Defined.

(** ** The buzzer of a reachable room *)

Section Rounds.

Lemma room_origin_round st code r' :
  (∀ c r, rooms st !! c = Some r → buzzer_round r) →
  room_origin st code r' → buzzer_round r'.
Proof.
  intros Hst [r Hr | tc hn now _ | r l Hr | r ev Hr Hopen | r Hr].
  - by eapply Hst.
  - by left.
  - destruct (Hst _ _ Hr) as [Hopen|Hlocked]; [by left|by right].
  - destruct (Hst _ _ Hr) as [(_ & _ & Horder)|(e & Hlocked & _)]; [|congruence].
    right. exists ev. simpl. by rewrite Horder.
  - by left.
Qed.

End Rounds.

(** X6 — in every reachable state a room has either no winner and an
    empty [buzzerOrder] with [buzzerPressed] false, or a winner that is the
    one and only element of [buzzerOrder] with [buzzerPressed] true: the
    list never holds a second event. *)
Theorem reachable_buzzer_round b st code r :
  reachable b st → rooms st !! code = Some r → buzzer_round r.
Proof.
  intros Hreach. revert code r.
  induction Hreach as [|st c st' out _ IH Hstep]; intros code r Hr.
  - simpl in Hr. by rewrite lookup_empty in Hr.
  - eapply room_origin_round; [exact IH|]. by eapply handle_rooms.
Qed.

Lemma reachable_buzzer_round_witness : buzzer_round room_xyz.
Proof.
  apply (reachable_buzzer_round Backend session_state "XYZ789" room_xyz).
  - apply session_reachable.
  - vm_compute. reflexivity.
Defined.

(** X7 — in every reachable state the winner recorded in a room is a
    player of that room: some player of the room has the [playerId],
    [playerName] and [team] of [firstBuzzer]. *)
Theorem reachable_winner_in_room b st code r e :
  reachable b st → rooms st !! code = Some r →
  Room.firstBuzzer r = Some e →
  ∃ p, p ∈ room_players (heap st) r
    ∧ Player.id p = BuzzerEvent.playerId e
    ∧ Player.name p = BuzzerEvent.playerName e
    ∧ Player.team p = BuzzerEvent.team e.
Proof.
  intros Hreach. revert code r e.
  induction Hreach as [|st c st' out Hst IH Hstep]; intros code r' e Hr' He.
  - simpl in Hr'. by rewrite lookup_empty in Hr'.
  - pose proof (reachable_refs_valid _ _ Hst) as Hvalid.
    destruct (handle_room _ _ _ _ _ _ _ Hvalid Hstep Hr')
      as [(_ & sid & tc & hn & now & draws & _ & ->)
         | (r & Hr & _ & _ & _ & _ & Hplayers & Hbuzzer)]; [done|].
    assert (Hbefore : ∃ p, p ∈ room_players (heap st) r
      ∧ Player.id p = BuzzerEvent.playerId e
      ∧ Player.name p = BuzzerEvent.playerName e
      ∧ Player.team p = BuzzerEvent.team e).
    { destruct Hbuzzer as [Hsame | [Hnone | (p & now & Hp & Hpress)]].
      - eapply IH; [exact Hr|]. by rewrite <- Hsame.
      - congruence.
      - exists p. split; [done|]. rewrite He in Hpress. by injection Hpress as ->. }
    destruct Hbefore as (p & Hp & Hid & Hname & Hteam).
    destruct Hplayers as [[_ Hview] | (sid & pn & ih & ma & team & _ & _ & _ & _ & ->)].
    + destruct (identity_elem _ _ p Hview Hp) as (p' & Hp' & Heq).
      exists p'. split; [done|]. unfold identity in Heq.
      injection Heq as -> -> -> _. done.
    + exists p. split; [|done]. apply elem_of_app. by left.
Qed.

Lemma reachable_winner_in_room_witness :
  ∃ p, p ∈ room_players (heap session_state) room_xyz
    ∧ Player.id p = "dan" ∧ Player.name p = "Dan" ∧ Player.team p = 2.
Proof.
  apply (reachable_winner_in_room Bundled session_state "XYZ789" room_xyz
           (BuzzerEvent.mk "dan" "Dan" 2 3000)).
  - apply session_reachable.
  - vm_compute. reflexivity.
  - reflexivity.
Defined.

(** ** Creating a room *)

(** X9 — [createRoom] returns a room without players, with the buzzer
    open, the given team count and host name and the current time; it puts
    the room under a code that was free, so every room that was in the
    registry is still there, unchanged, and it touches neither the
    directory nor the players. *)
Theorem createRoom_keeps_rooms teamCount hostName now draws st room st' :
  createRoom teamCount hostName now draws st = Some (room, st') →
  room = Room.mk (Room.code room) teamCount hostName [] false None [] now
  ∧ rooms st !! Room.code room = None
  ∧ rooms st' !! Room.code room = Some room
  ∧ (∀ code r, rooms st !! code = Some r → rooms st' !! code = Some r)
  ∧ (∀ code, code ≠ Room.code room → rooms st' !! code = rooms st !! code)
  ∧ players st' = players st
  ∧ heap st' = heap st.
Proof.
  intros (Hfresh & Hroom & ->)%createRoom_spec.
  apply fresh_code_spec in Hfresh as [Hfree _]. simpl.
  split; [done|]. split; [done|]. split; [apply lookup_insert_eq|].
  split; [|split; [|done]].
  - intros code r Hr. rewrite lookup_insert_ne; [done|]. congruence.
  - intros code Hne. by rewrite lookup_insert_ne.
Qed.

Lemma createRoom_keeps_rooms_witness :
  let room := Room.new "I" 4 "Eve" 9 in
  let st' := with_rooms (<["I" := room]> (rooms session_state)) session_state in
  room = Room.mk (Room.code room) 4 "Eve" [] false None [] 9
  ∧ rooms session_state !! Room.code room = None
  ∧ rooms st' !! Room.code room = Some room
  ∧ (∀ code r, rooms session_state !! code = Some r → rooms st' !! code = Some r)
  ∧ (∀ code, code ≠ Room.code room → rooms st' !! code = rooms session_state !! code)
  ∧ players st' = players session_state
  ∧ heap st' = heap session_state.
Proof.
  refine (createRoom_keeps_rooms 4 "Eve" 9 [[10; 11; 12; 1; 2; 3]%nat; [18%nat]]
    session_state (Room.new "I" 4 "Eve" 9)
    (with_rooms (<["I" := Room.new "I" 4 "Eve" 9]> (rooms session_state))
       session_state) _).
  vm_compute. reflexivity.
Defined.

Lemma createRoom_code_witness :
  rooms session_state !! "I" = None
  ∧ (String.length "I" ≤ 6)%nat
  ∧ string_forall code_char "I" = true.
Proof.
  refine (createRoom_code 4 "Eve" 9 [[10; 11; 12; 1; 2; 3]%nat; [18%nat]]
    session_state (Room.new "I" 4 "Eve" 9)
    (with_rooms (<["I" := Room.new "I" 4 "Eve" 9]> (rooms session_state))
       session_state) _ _).
  - repeat constructor.
  - vm_compute. reflexivity.
Defined.

Section CodeShape.

Lemma substring_length n m s :
  String.length (substring n m s) = Nat.min m (String.length s - n).
Proof.
  revert n m. induction s as [|c s IH]; intros [|n] [|m]; simpl; try done.
  by rewrite (IH 0%nat m), Nat.sub_0_r.
Qed.

Lemma upper_ascii_idemp c : upper_ascii (upper_ascii c) = upper_ascii c.
Proof. destruct c as [[] [] [] [] [] [] [] []]; reflexivity. Qed.

Lemma toUpperCase_idemp s : toUpperCase (toUpperCase s) = toUpperCase s.
Proof. induction s as [|c s IH]; simpl; [done|]. by rewrite upper_ascii_idemp, IH. Qed.

End CodeShape.

(** X10 — the code made from a draw has as many characters as the draw
    prints digits, up to six: six exactly when [Math.random().toString(36)]
    has at least six digits after the point, fewer otherwise, none for a
    draw of zero. *)
Theorem generateRoomCode_length r :
  String.length (generateRoomCode r) = Nat.min 6 (List.length r).
Proof.
  unfold generateRoomCode. rewrite toUpperCase_length, substring_length.
  destruct r as [|d r]; [done|].
  rewrite toString36_length by done. f_equal; lia.
Qed.

(** X11 — a generated room code is its own upper case: the page that
    sends the user to a room with [roomCode.toUpperCase()] names the room
    by the very code the server made. *)
Theorem generateRoomCode_upper r :
  toUpperCase (generateRoomCode r) = generateRoomCode r.
Proof. unfold generateRoomCode. apply toUpperCase_idemp. Qed.

(** ** The branch taken by a command *)

Section Effects.

Lemma handle_effect b c st st' out :
  handle b c st = Done st' out → effect st c st'.
Proof.
  destruct c as [sid tc hn now draws | sid rc pn ih ma | sid rc pid now | sid rc
                | sid rc | sid | sid rc | now]; simpl.
  - intros (c & Hfree & -> & _)%on_create_room_Done. by constructor.
  - unfold on_join_room. destruct (rooms st !! rc) as [room|] eqn:Hrc.
    + destruct (find_player _ _ _) as [[l p]|] eqn:Hfind.
      * intros [= <- _]. by eapply effect_rejoin.
      * destruct (assignPlayerToTeam _ _ _) as [team|] eqn:Hteam; [|done].
        intros [= <- _]. by apply effect_join.
    + intros [= <- _]. constructor.
  - unfold on_press_buzzer. destruct (rooms st !! rc) as [room|] eqn:Hrc.
    + destruct (Room.buzzerPressed room) eqn:Hopen; [intros [= <- _]; constructor|].
      destruct (find_player _ _ _) as [[l p]|] eqn:Hfind.
      * intros [= <- _]. by eapply effect_press.
      * intros [= <- _]. constructor.
    + intros [= <- _]. constructor.
  - unfold on_reset_buzzer. destruct (rooms st !! rc) as [room|] eqn:Hrc.
    + destruct (is_host sid st) eqn:Hhost.
      * intros [= <- _]. by apply effect_reset.
      * intros [= <- _]. constructor.
    + destruct b; intros [= <- _]; constructor.
  - unfold on_get_room. destruct (rooms st !! rc); intros [= <- _]; constructor.
  - unfold on_disconnect. destruct (map_get sid (players st)) as [d|] eqn:Hd.
    + intros [= <- _]. by eapply effect_disconnect.
    + intros [= <- _]. constructor.
  - unfold on_delete_room. destruct (is_host sid st) eqn:Hhost.
    + destruct (rooms st !! rc) as [room|] eqn:Hrc.
      * intros [= <- _]. by apply effect_delete.
      * intros [= <- _]. constructor.
    + intros [= <- _]. constructor.
  - intros [= <- _]. constructor.
Qed.

End Effects.

Ltac at_key k k' :=
  destruct (decide (k = k')) as [->|?];
  [ rewrite ?lookup_insert_eq, ?lookup_delete_eq
  | rewrite ?lookup_insert_ne, ?lookup_delete_ne by done ].

(** X12 — the registry gains a room only by [create-room], and the room
    it gains is new: no players, buzzer open.  It loses a room only by a
    [delete-room] from a connection bound to a host, or by a sweep when the
    room has no players and is older than two hours: a room with a player
    is never removed by anything but [delete-room]. *)
Theorem registry_changes b c st st' out code :
  handle b c st = Done st' out →
  (∀ r', rooms st !! code = None → rooms st' !! code = Some r' →
     ∃ sid teamCount hostName now draws,
       c = create_room sid teamCount hostName now draws
       ∧ r' = Room.mk code teamCount hostName [] false None [] now)
  ∧ (∀ r, rooms st !! code = Some r → rooms st' !! code = None →
       (∃ sid, c = delete_room sid code ∧ is_host sid st = true)
       ∨ (∃ now, c = sweep now ∧ Room.players r = []
                 ∧ now - Room.createdAt r > 7200000)).
Proof.
  intros Hstep%handle_effect.
  destruct Hstep as [c | sid tc hn now draws rc Hfree | sid rc pn ih ma room team Hrc _ _
    | sid rc pn ih ma room l p Hrc _ | sid rc pid now room l p Hrc _ _
    | sid rc room Hrc Hhost | sid d _ | sid rc room Hhost Hrc | now]; simpl.
  - split; intros; congruence.
  - split.
    + intros r' Hnone. at_key rc code.
      * intros [= <-]. by exists sid, tc, hn, now, draws.
      * congruence.
    + intros r Hr. at_key rc code; congruence.
  - split.
    + intros r' Hnone. at_key rc code; congruence.
    + intros r Hr. at_key rc code; congruence.
  - split; intros; congruence.
  - split.
    + intros r' Hnone. at_key rc code; congruence.
    + intros r Hr. at_key rc code; congruence.
  - split.
    + intros r' Hnone. at_key rc code; congruence.
    + intros r Hr. at_key rc code; congruence.
  - split; intros; congruence.
  - split.
    + intros r' Hnone. at_key rc code; congruence.
    + intros r Hr. at_key rc code.
      * intros _. left. by exists sid.
      * congruence.
  - pose proof (cleanup_lookup now st code) as Hlookup. simpl in Hlookup.
    rewrite Hlookup. split.
    + intros r' ->. done.
    + intros r ->. unfold expired, maxAge.
      case_bool_decide as Hage; [|done]. case_bool_decide as Hempty; [|done].
      intros _. right. exists now. split; [done|]. split; [|lia].
      by destruct (Room.players r).
Qed.

Lemma registry_changes_witness :
  (∃ sid, delete_room "alice" "XYZ789" = delete_room sid "XYZ789"
          ∧ is_host sid session_state = true)
  ∨ (∃ now, delete_room "alice" "XYZ789" = sweep now ∧ Room.players room_xyz = []
            ∧ now - Room.createdAt room_xyz > 7200000).
Proof.
  refine (proj2 (registry_changes Backend (delete_room "alice" "XYZ789") session_state
    (mkState (delete "XYZ789" (rooms session_state))
       (foldl (drop_entry (heap session_state)) (players session_state)
          (room_players (heap session_state) room_xyz))
       (heap session_state))
    [to_room "XYZ789" room_deleted] "XYZ789" _) room_xyz _ _).
  - vm_compute. reflexivity.
  - vm_compute. reflexivity.
  - vm_compute. reflexivity.
Defined.

(** X13 — [buzzerPressed] of a room goes from false to true only by a
    [press-buzzer] on that room with the id of one of its players, and from
    true to false only by a [reset-buzzer] on that room from a connection
    bound to a host. *)
Theorem buzzer_changes b c st st' out code r r' :
  handle b c st = Done st' out →
  rooms st !! code = Some r → rooms st' !! code = Some r' →
  (Room.buzzerPressed r = false → Room.buzzerPressed r' = true →
     ∃ sid playerId now l p,
       c = press_buzzer sid code playerId now ∧ presser st r playerId = Some (l, p))
  ∧ (Room.buzzerPressed r = true → Room.buzzerPressed r' = false →
       ∃ sid, c = reset_buzzer sid code ∧ is_host sid st = true).
Proof.
  intros Hstep%handle_effect Hr.
  destruct Hstep as [c | sid tc hn now draws rc Hfree | sid rc pn ih ma room team Hrc _ _
    | sid rc pn ih ma room l p Hrc _ | sid rc pid now room l p Hrc Hopen Hknown
    | sid rc room Hrc Hhost | sid d _ | sid rc room Hhost Hrc | now]; simpl.
  - intros Hr'. split; intros; congruence.
  - at_key rc code; [congruence|]. intros Hr'. split; intros; congruence.
  - at_key rc code.
    + intros [= <-]. simpl. assert (room = r) as -> by congruence.
      split; intros; congruence.
    + intros Hr'. split; intros; congruence.
  - intros Hr'. split; intros; congruence.
  - at_key rc code.
    + intros [= <-]. simpl. assert (room = r) as -> by congruence. split.
      * intros _ _. by exists sid, pid, now, l, p.
      * intros; congruence.
    + intros Hr'. split; intros; congruence.
  - at_key rc code.
    + intros [= <-]. simpl. assert (room = r) as -> by congruence. split.
      * intros; congruence.
      * intros _ _. by exists sid.
    + intros Hr'. split; intros; congruence.
  - intros Hr'. split; intros; congruence.
  - at_key rc code; [done|]. intros Hr'. split; intros; congruence.
  - pose proof (cleanup_lookup now st code) as Hlookup. simpl in Hlookup.
    rewrite Hlookup, Hr. destruct (expired now r); [done|].
    intros [= <-]. split; intros; congruence.
Qed.

Lemma buzzer_changes_witness :
  ∃ sid, reset_buzzer "alice" "XYZ789" = reset_buzzer sid "XYZ789"
         ∧ is_host sid session_state = true.
Proof.
  refine (proj2 (buzzer_changes Bundled (reset_buzzer "alice" "XYZ789") session_state
    (with_rooms (<["XYZ789" := Room.reset room_xyz]> (rooms session_state)) session_state)
    [to_room "XYZ789"
       (room_state (snapshot (heap session_state) (Room.reset room_xyz)))]
    "XYZ789" room_xyz (Room.reset room_xyz) _ _ _) _ _).
  - vm_compute. reflexivity.
  - vm_compute. reflexivity.
  - vm_compute. reflexivity.
  - reflexivity.
  - reflexivity.
Defined.

(** X14 — whatever the command, a room that is in the registry before
    and after it has the same code, team count, host name and creation
    time, and its list of players has only grown at the end: no player ever
    leaves a room, and the join order is kept. *)
Theorem room_fields_stable b c st st' out code r r' :
  handle b c st = Done st' out →
  rooms st !! code = Some r → rooms st' !! code = Some r' →
  Room.code r' = Room.code r
  ∧ Room.teamCount r' = Room.teamCount r
  ∧ Room.hostName r' = Room.hostName r
  ∧ Room.createdAt r' = Room.createdAt r
  ∧ Room.players r `prefix_of` Room.players r'.
Proof.
  intros Hstep Hr Hr'.
  destruct (handle_rooms _ _ _ _ _ _ _ Hstep Hr')
    as [r0 Hr0 | tc hn now Hnone | r0 l Hr0 | r0 ev Hr0 _ | r0 Hr0];
    try congruence; assert (r0 = r) as -> by congruence; simpl;
    repeat split; try done.
  by apply prefix_app_r.
Qed.

Lemma room_fields_stable_witness :
  Room.code (Room.reset room_xyz) = Room.code room_xyz
  ∧ Room.teamCount (Room.reset room_xyz) = Room.teamCount room_xyz
  ∧ Room.hostName (Room.reset room_xyz) = Room.hostName room_xyz
  ∧ Room.createdAt (Room.reset room_xyz) = Room.createdAt room_xyz
  ∧ Room.players room_xyz `prefix_of` Room.players (Room.reset room_xyz).
Proof.
  refine (room_fields_stable Bundled (reset_buzzer "alice" "XYZ789") session_state
    (with_rooms (<["XYZ789" := Room.reset room_xyz]> (rooms session_state)) session_state)
    [to_room "XYZ789"
       (room_state (snapshot (heap session_state) (Room.reset room_xyz)))]
    "XYZ789" room_xyz (Room.reset room_xyz) _ _ _).
  - vm_compute. reflexivity.
  - vm_compute. reflexivity.
  - vm_compute. reflexivity.
Defined.

(** X15 — whatever the command, a player that exists keeps its [id],
    [name], [team] and [isHost]: a player is never renamed, never moved to
    another team, and never gains or loses the host flag. *)
Theorem player_identity_stable b c st st' out l p :
  handle b c st = Done st' out →
  heap st !! l = Some p →
  ∃ p', heap st' !! l = Some p' ∧ identity p' = identity p.
Proof.
  intros [Hsame | [(sid & code & pn & ih & ma & team & host & _ & Hnew)
                  | (sid & code & ih & ma & l0 & p0 & _ & Hl0 & Hset)]]%handle_heap Hl.
  - rewrite Hsame. by exists p.
  - rewrite Hnew. exists p. split; [|done].
    rewrite lookup_app_l; [done|]. by eapply lookup_lt_Some.
  - rewrite Hset. destruct (decide (l = l0)) as [->|Hne].
    + exists (Player.set_socketId sid p0).
      rewrite list_lookup_insert_eq by (by eapply lookup_lt_Some).
      split; [done|]. rewrite identity_set_socketId. congruence.
    + exists p. by rewrite list_lookup_insert_ne.
Qed.

Lemma player_identity_stable_witness :
  ∃ p', heap rejoined !! 1%nat = Some p'
    ∧ identity p' = identity (Player.mk "bob" "Bob" 2 false "bob").
Proof.
  assert (Hstep : handle Backend rejoin session_state = Done rejoined rejoined_out)
    by (vm_compute; reflexivity).
  exact (player_identity_stable Backend rejoin session_state rejoined rejoined_out
           1%nat (Player.mk "bob" "Bob" 2 false "bob") Hstep eq_refl).
Defined.

(** X16 — a command that names a room code that is not in the registry
    changes nothing and broadcasts nothing: whatever is sent goes to the
    sender alone. *)
Theorem unknown_room_changes_nothing b c st code :
  room_of c = Some code → rooms st !! code = None →
  ∃ out, handle b c st = Done st out
    ∧ Forall (λ m, ∀ rc e, m ≠ to_room rc e) out.
Proof.
  intros Hc Hnone.
  destruct c as [sid tc hn now draws | sid rc pn ih ma | sid rc pid now | sid rc
                | sid rc | sid | sid rc | now]; simpl in Hc; try done;
    injection Hc as ->; simpl.
  - unfold on_join_room. rewrite Hnone. eexists. split; [done|].
    by repeat constructor.
  - unfold on_press_buzzer. rewrite Hnone. eexists. split; [done|]. constructor.
  - unfold on_reset_buzzer. rewrite Hnone.
    destruct b; eexists; (split; [done|]); by repeat constructor.
  - unfold on_get_room. rewrite Hnone. eexists. split; [done|].
    by repeat constructor.
  - unfold on_delete_room. rewrite Hnone.
    destruct (is_host sid st); eexists; (split; [done|]); by repeat constructor.
Qed.

Lemma unknown_room_changes_nothing_witness :
  ∃ out, handle Backend (join_room "zed" "NOROOM" "Zed" true 100000) session_state
         = Done session_state out
    ∧ Forall (λ m, ∀ rc e, m ≠ to_room rc e) out.
Proof.
  apply (unknown_room_changes_nothing Backend (join_room "zed" "NOROOM" "Zed" true 100000)
           session_state "NOROOM").
  - reflexivity.
  - vm_compute. reflexivity.
Defined.

Section Bindings.

Lemma map_get_delete {V} k k' (m : list (string * V)) :
  map_get k' (map_delete k m) = if decide (k' = k) then None else map_get k' m.
Proof.
  case_decide as Hk.
  - subst. apply map_get_delete_eq.
  - by apply map_get_delete_ne.
Qed.

Lemma foldl_drop_entry_cases h ps : ∀ dir sid,
  map_get sid (foldl (drop_entry h) dir ps) = None
  ∨ map_get sid (foldl (drop_entry h) dir ps) = map_get sid dir.
Proof.
  induction ps as [|p ps IH]; intros dir sid; simpl; [by right|].
  destruct (IH (drop_entry h dir p) sid) as [Hnone|Hsame]; [by left|].
  rewrite Hsame. unfold drop_entry. destruct (List.find _ dir) as [e|]; [|by right].
  rewrite map_get_delete. case_decide; [by left|by right].
Qed.

End Bindings.

(** X17 — the directory entry of a connection changes only by a
    [join-room] from that connection, which binds it to a player of the
    room joined, by its [disconnect], which removes it, or by a
    [delete-room] from a host, which removes it. *)
Theorem directory_changes b c st st' out sid :
  handle b c st = Done st' out →
  map_get sid (players st') ≠ map_get sid (players st) →
  (∃ code playerName isHost maxArguments d,
     c = join_room sid code playerName isHost maxArguments
     ∧ map_get sid (players st') = Some d ∧ roomCode d = code)
  ∨ (c = disconnect sid ∧ map_get sid (players st') = None)
  ∨ (∃ host code,
       c = delete_room host code ∧ is_host host st = true
       ∧ map_get sid (players st') = None).
Proof.
  intros Hstep%handle_effect.
  destruct Hstep as [c | sid0 tc hn now draws rc Hfree | sid0 rc pn ih ma room team Hrc _ _
    | sid0 rc pn ih ma room l p Hrc _ | sid0 rc pid now room l p Hrc _ _
    | sid0 rc room Hrc Hhost | sid0 d _ | sid0 rc room Hhost Hrc | now]; simpl;
    try done.
  - destruct (decide (sid = sid0)) as [->|Hne].
    + rewrite map_get_set_eq. intros _. left. by eexists rc, pn, ih, ma, _.
    + by rewrite map_get_set_ne.
  - destruct (decide (sid = sid0)) as [->|Hne].
    + rewrite map_get_set_eq. intros _. left. by eexists rc, pn, ih, ma, _.
    + by rewrite map_get_set_ne.
  - rewrite map_get_delete. case_decide as Hsid; [|done].
    subst. intros _. right. left. done.
  - intros Hchanged. right. right. exists sid0, rc. split; [done|]. split; [done|].
    simpl. destruct (foldl_drop_entry_cases (heap st)
                       (room_players (heap st) room) (players st) sid); done.
Qed.

Lemma directory_changes_witness :
  (∃ code playerName isHost maxArguments d,
     disconnect "dan" = join_room "dan" code playerName isHost maxArguments
     ∧ map_get "dan" (map_delete "dan" (players session_state)) = Some d
     ∧ roomCode d = code)
  ∨ (disconnect "dan" = disconnect "dan"
     ∧ map_get "dan" (map_delete "dan" (players session_state)) = None)
  ∨ (∃ host code,
       disconnect "dan" = delete_room host code ∧ is_host host session_state = true
       ∧ map_get "dan" (map_delete "dan" (players session_state)) = None).
Proof.
  refine (directory_changes Backend (disconnect "dan") session_state
    (with_players (map_delete "dan" (players session_state)) session_state)
    [to_room "XYZ789" (room_state (snapshot (heap session_state) room_xyz))]
    "dan" _ _).
  - vm_compute. reflexivity.
  - vm_compute. discriminate.
Defined.

(** X18 — [disconnect] always completes; it leaves the rooms and the
    players as they are, with the disconnected player still in its room,
    and removes the directory entry of the connection and no other.  After
    it the connection is bound to no host: a [reset-buzzer] or a
    [delete-room] from it on a room is refused with the error message and
    changes nothing. *)
Theorem disconnect_unbinds b sid st code room :
  rooms st !! code = Some room →
  ∃ st' out,
    on_disconnect sid st = Done st' out
    ∧ rooms st' = rooms st
    ∧ heap st' = heap st
    ∧ map_get sid (players st') = None
    ∧ (∀ sid', sid' ≠ sid → map_get sid' (players st') = map_get sid' (players st))
    ∧ on_reset_buzzer b sid code st'
      = Done st' [to_socket sid (error "Only the host can reset the buzzer")]
    ∧ on_delete_room sid code st'
      = Done st' [to_socket sid (error "Only the host can delete the room")].
Proof.
  intros Hroom. unfold on_disconnect.
  destruct (map_get sid (players st)) as [d|] eqn:Hd.
  - eexists _, _. split; [reflexivity|]. simpl.
    split; [done|]. split; [done|]. split; [apply map_get_delete_eq|].
    split; [intros sid' Hne; by apply map_get_delete_ne|].
    unfold on_reset_buzzer, on_delete_room, is_host. simpl.
    by rewrite Hroom, map_get_delete_eq.
  - eexists _, _. split; [reflexivity|].
    split; [done|]. split; [done|]. split; [done|]. split; [done|].
    unfold on_reset_buzzer, on_delete_room, is_host.
    by rewrite Hroom, Hd.
Qed.

Lemma disconnect_unbinds_witness :
  ∃ st' out,
    on_disconnect "carol" session_state = Done st' out
    ∧ rooms st' = rooms session_state
    ∧ heap st' = heap session_state
    ∧ map_get "carol" (players st') = None
    ∧ (∀ sid', sid' ≠ "carol" →
         map_get sid' (players st') = map_get sid' (players session_state))
    ∧ on_reset_buzzer Bundled "carol" "XYZ789" st'
      = Done st' [to_socket "carol" (error "Only the host can reset the buzzer")]
    ∧ on_delete_room "carol" "XYZ789" st'
      = Done st' [to_socket "carol" (error "Only the host can delete the room")].
Proof.
  apply (disconnect_unbinds Bundled "carol" session_state "XYZ789" room_xyz).
  vm_compute. reflexivity.
Defined.

Section JoinPaths.

(** [find] finds nothing exactly when no player of the list satisfies the
    predicate. *)
Lemma find_player_fresh pred h refs :
  (∀ p, p ∈ omap (λ l : ref, h !! l) refs → pred p = false) →
  find_player pred h refs = None.
Proof.
  intros Hnone. destruct (find_player pred h refs) as [[l p]|] eqn:Hfind; [|done].
  apply find_player_Some in Hfind as (Hl & Hp & Hpred).
  rewrite Hnone in Hpred; [done|]. apply list_elem_of_omap. by exists l.
Qed.

Lemma find_player_found pred h refs p :
  p ∈ omap (λ l : ref, h !! l) refs → pred p = true →
  ∃ l q, find_player pred h refs = Some (l, q).
Proof.
  intros Hp Hpred. destruct (find_player pred h refs) as [[l q]|] eqn:Hfind; [eauto|].
  rewrite (find_player_None _ _ _ _ Hfind Hp) in Hpred. done.
Qed.

End JoinPaths.

(** X19 — a player that disconnects and joins its room again under its
    name, from any connection, is the same player: no player is added, the
    room is unchanged, the player keeps its [id], [name], [team] and
    [isHost], and the new connection is bound to it. *)
Theorem rejoin_after_disconnect st sid sid' code playerName isHost maxArguments room p0 :
  rooms st !! code = Some room →
  p0 ∈ room_players (heap st) room →
  Player.name p0 = playerName →
  ∃ st1 out1 st2 out2 l p p',
    on_disconnect sid st = Done st1 out1
    ∧ on_join_room sid' code playerName isHost maxArguments st1 = Done st2 out2
    ∧ l ∈ Room.players room ∧ heap st !! l = Some p ∧ Player.name p = playerName
    ∧ heap st2 !! l = Some p'
    ∧ identity p' = identity p ∧ Player.socketId p' = sid'
    ∧ rooms st2 = rooms st
    ∧ List.length (heap st2) = List.length (heap st)
    ∧ map_get sid' (players st2) = Some (mkPlayerData l code).
Proof.
  intros Hroom Hp0 Hname.
  destruct (find_player_found (λ p, bool_decide (Player.name p = playerName))
              (heap st) (Room.players room) p0 Hp0) as (l & p & Hfind).
  { by apply bool_decide_eq_true. }
  pose proof (find_player_Some _ _ _ _ _ Hfind) as (Hl & Hp & Hpred).
  apply bool_decide_eq_true in Hpred.
  assert (Hjoin : ∀ st1, rooms st1 = rooms st → heap st1 = heap st →
    on_join_room sid' code playerName isHost maxArguments st1
    = Done (mkState (rooms st1)
              (map_set sid' (mkPlayerData l code) (players st1))
              (<[l := Player.set_socketId sid' p]> (heap st1)))
           [to_socket sid' (player_joined (Player.set_socketId sid' p));
            to_room code (room_state
              (snapshot (<[l := Player.set_socketId sid' p]> (heap st1)) room))]).
  { intros st1 Hrooms Hheap. unfold on_join_room.
    by rewrite Hrooms, Hheap, Hroom, Hfind. }
  unfold on_disconnect. destruct (map_get sid (players st)) as [d|].
  - eexists _, _, _, _, l, p, (Player.set_socketId sid' p).
    split; [reflexivity|]. split; [by apply Hjoin|]. simpl.
    repeat split; try done.
    + apply list_lookup_insert_eq. by eapply lookup_lt_Some.
    + apply length_insert.
    + apply map_get_set_eq.
  - eexists _, _, _, _, l, p, (Player.set_socketId sid' p).
    split; [reflexivity|]. split; [by apply Hjoin|]. simpl.
    repeat split; try done.
    + apply list_lookup_insert_eq. by eapply lookup_lt_Some.
    + apply length_insert.
    + apply map_get_set_eq.
Qed.

Lemma rejoin_after_disconnect_witness :
  ∃ st1 out1 st2 out2 l p p',
    on_disconnect "dan" session_state = Done st1 out1
    ∧ on_join_room "dan2" "XYZ789" "Dan" true 100000 st1 = Done st2 out2
    ∧ l ∈ Room.players room_xyz
    ∧ heap session_state !! l = Some p ∧ Player.name p = "Dan"
    ∧ heap st2 !! l = Some p'
    ∧ identity p' = identity p ∧ Player.socketId p' = "dan2"
    ∧ rooms st2 = rooms session_state
    ∧ List.length (heap st2) = List.length (heap session_state)
    ∧ map_get "dan2" (players st2) = Some (mkPlayerData l "XYZ789").
Proof.
  refine (rejoin_after_disconnect session_state "dan" "dan2" "XYZ789" "Dan" true 100000
    room_xyz (Player.mk "dan" "Dan" 2 false "dan") _ _ _).
  - vm_compute. reflexivity.
  - change (Player.mk "dan" "Dan" 2 false "dan"
            ∈ [Player.mk "carol" "Carol" 1 true "carol";
               Player.mk "dan" "Dan" 2 false "dan"]).
    apply list_elem_of_further, list_elem_of_here.
  - reflexivity.
Defined.

(** X20 — a room created with a team count below one breaks joining:
    with a negative team count, [join-room] under a new name throws the
    [RangeError] of [Array(teamCount)] before it has changed anything; with
    a team count of zero it adds the player on team 0, which is no team. *)
Theorem join_room_without_teams st sid code playerName isHost maxArguments room :
  rooms st !! code = Some room →
  (∀ p, p ∈ room_players (heap st) room → Player.name p ≠ playerName) →
  (Room.teamCount room < 0 →
     on_join_room sid code playerName isHost maxArguments st
     = Threw "RangeError: Invalid array length")
  ∧ (Room.teamCount room = 0 →
       ∃ st' out,
         on_join_room sid code playerName isHost maxArguments st = Done st' out
         ∧ heap st'
           = heap st
             ++ [Player.mk sid playerName 0
                   (isHost || bool_decide (List.length (Room.players room) = 0%nat))
                   sid]
         ∧ rooms st' !! code
           = Some (Room.push_player (List.length (heap st)) room)).
Proof.
  intros Hroom Hfresh.
  assert (Hfind : find_player (λ p, bool_decide (Player.name p = playerName))
                    (heap st) (Room.players room) = None).
  { apply find_player_fresh. intros p Hp. apply bool_decide_eq_false.
    by apply Hfresh. }
  unfold on_join_room. rewrite Hroom, Hfind. split.
  - intros Hneg. unfold assignPlayerToTeam, range_error.
    by rewrite (bool_decide_eq_true_2 (Room.teamCount room < 0)).
  - intros Hzero. unfold assignPlayerToTeam, maxArrayLength.
    rewrite !bool_decide_eq_false_2 by lia. simpl.
    destruct (team_counts_spec (heap st) room) as [Hlen _]; [lia|].
    rewrite Hzero in Hlen. simpl in Hlen.
    destruct (team_counts (heap st) room); [|done]. simpl.
    rewrite bool_decide_eq_false_2 by lia.
    eexists _, _. split; [reflexivity|]. simpl. split; [done|].
    apply lookup_insert_eq.
Qed.

Lemma join_room_without_teams_witness :
  on_join_room "zed" "I" "Zed" false 100000
    (with_rooms (<["I" := Room.new "I" (-3) "Eve" 5]> (rooms session_state))
       session_state)
  = Threw "RangeError: Invalid array length".
Proof.
  refine (proj1 (join_room_without_teams
    (with_rooms (<["I" := Room.new "I" (-3) "Eve" 5]> (rooms session_state))
       session_state)
    "zed" "I" "Zed" false 100000 (Room.new "I" (-3) "Eve" 5) _ _) _).
  - vm_compute. reflexivity.
  - intros p Hp. by apply elem_of_nil in Hp.
  - vm_compute. reflexivity.
Defined.



(** ** Deleting a room *)

(** X22 — [delete-room] from a connection that is not bound to a host is
    refused with the error message and changes nothing; from a host, on an
    unknown code, it does and sends nothing; from a host, on a room, it
    announces the deletion to the room and removes that room and no other,
    leaves the players as they are, and only removes directory entries:
    every entry that is left was there with the same value. *)
Theorem delete_room_spec sid code st :
  (is_host sid st = false →
     on_delete_room sid code st
     = Done st [to_socket sid (error "Only the host can delete the room")])
  ∧ (is_host sid st = true → rooms st !! code = None →
       on_delete_room sid code st = Done st [])
  ∧ (is_host sid st = true → ∀ room, rooms st !! code = Some room →
       ∃ st',
         on_delete_room sid code st = Done st' [to_room code room_deleted]
         ∧ rooms st' !! code = None
         ∧ (∀ c, c ≠ code → rooms st' !! c = rooms st !! c)
         ∧ heap st' = heap st
         ∧ (∀ k d, map_get k (players st') = Some d →
              map_get k (players st) = Some d)).
Proof.
  unfold on_delete_room. split; [|split].
  - by intros ->.
  - by intros -> ->.
  - intros -> room ->. eexists. split; [reflexivity|]. simpl.
    split; [apply lookup_delete_eq|]. split.
    + intros c Hne. by apply lookup_delete_ne.
    + split; [done|]. intros k d. apply foldl_drop_entry_get.
Qed.

Lemma delete_room_spec_witness :
  on_delete_room "dan" "XYZ789" session_state
  = Done session_state [to_socket "dan" (error "Only the host can delete the room")].
Proof.
  refine (proj1 (delete_room_spec "dan" "XYZ789" session_state) _).
  vm_compute. reflexivity.
Defined.

Section Unbinding.

Lemma elem_of_map_delete {V} k (m : list (string * V)) e :
  e ∈ map_delete k m ↔ e ∈ m ∧ e.1 ≠ k.
Proof.
  induction m as [|[k' v'] m IH]; cbn [map_delete].
  - split; [by intros ?%elem_of_nil | by intros [?%elem_of_nil _]].
  - case_bool_decide as Hk.
    + rewrite IH, elem_of_cons. split.
      * intros [Hin Hne]. split; [by right|done].
      * intros [[->|Hin] Hne]; [done|done].
    + rewrite !elem_of_cons, IH. split.
      * intros [->|[Hin Hne]]; [split; [by left|done] | split; [by right|done]].
      * intros [[->|Hin] Hne]; [by left | by right].
Qed.

Lemma NoDup_fmap_elem {A B} (f : A → B) (l : list A) x y :
  NoDup (f <$> l) → x ∈ l → y ∈ l → f x = f y → x = y.
Proof.
  induction l as [|a l IH]; [by intros _ ?%elem_of_nil|].
  rewrite fmap_cons. intros [Hnotin Hnodup]%NoDup_cons.
  intros [->|Hx]%elem_of_cons [->|Hy]%elem_of_cons Heq; [done| | |by apply IH].
  - exfalso. apply Hnotin. rewrite Heq. by apply list_elem_of_fmap_2.
  - exfalso. apply Hnotin. rewrite <- Heq. by apply list_elem_of_fmap_2.
Qed.

Lemma NoDup_map_delete {V B} (f : string * V → B) k (m : list (string * V)) :
  NoDup (f <$> m) → NoDup (f <$> map_delete k m).
Proof.
  induction m as [|[k' v'] m IH]; cbn [map_delete]; [done|].
  rewrite fmap_cons. intros [Hnotin Hnodup]%NoDup_cons.
  case_bool_decide; [by apply IH|].
  rewrite fmap_cons. apply NoDup_cons. split; [|by apply IH].
  intros (e & Heq & [He _]%elem_of_map_delete)%list_elem_of_fmap.
  apply Hnotin. rewrite Heq. by apply list_elem_of_fmap_2.
Qed.

(** One round of the loop of [delete-room], when no two entries have the
    same player id: no entry with the id of [p] is left. *)
Lemma drop_entry_unbinds h dir p :
  NoDup (entry_ids h dir) →
  NoDup (entry_ids h (drop_entry h dir p))
  ∧ (∀ e, e ∈ drop_entry h dir p → e ∈ dir)
  ∧ (∀ e, e ∈ drop_entry h dir p →
       Player.id <$> h !! player e.2 ≠ Some (Player.id p)).
Proof.
  intros Hnodup. unfold drop_entry.
  set (pred := λ e : string * PlayerData,
                 match h !! player e.2 with
                 | Some q => bool_decide (Player.id q = Player.id p)
                 | None => false
                 end).
  assert (Hpred : ∀ e, pred e = true ↔ Player.id <$> h !! player e.2 = Some (Player.id p)).
  { intros e. unfold pred. destruct (h !! player e.2) as [q|]; simpl.
    - rewrite bool_decide_eq_true. split; [by intros -> | by intros [= ->]].
    - split; done. }
  destruct (List.find pred dir) as [e0|] eqn:Hfind.
  - apply List.find_some in Hfind as [Hin0%list_elem_of_In Hp0].
    split; [by apply NoDup_map_delete|]. split.
    + by intros e [He _]%elem_of_map_delete.
    + intros e [He Hkey]%elem_of_map_delete Hid.
      apply Hkey. f_equal.
      apply (NoDup_fmap_elem _ _ _ _ Hnodup He Hin0).
      apply Hpred in Hp0. by rewrite Hid, Hp0.
  - split; [done|]. split; [done|].
    intros e He Hid. apply Hpred in Hid.
    apply list_elem_of_In in He.
    rewrite (List.find_none _ _ Hfind e He) in Hid. done.
Qed.

Lemma foldl_drop_entry_unbinds h ps : ∀ dir,
  NoDup (entry_ids h dir) →
  (∀ e, e ∈ foldl (drop_entry h) dir ps → e ∈ dir)
  ∧ (∀ e p, e ∈ foldl (drop_entry h) dir ps → p ∈ ps →
       Player.id <$> h !! player e.2 ≠ Some (Player.id p)).
Proof.
  induction ps as [|p ps IH]; intros dir Hnodup; simpl.
  - split; [done|]. by intros e p _ ?%elem_of_nil.
  - destruct (drop_entry_unbinds h dir p Hnodup) as (Hnodup' & Hsub & Hgone).
    destruct (IH _ Hnodup') as [IHsub IHgone]. split.
    + intros e He. by apply Hsub, IHsub.
    + intros e q He [->|Hq]%elem_of_cons.
      * by apply Hgone, IHsub.
      * by apply IHgone.
Qed.

End Unbinding.

(** X23 — when no two directory entries refer to players with the same
    id, a [delete-room] from a host unbinds all the players of the room:
    no entry that is left refers to a player with the id of one of them. *)
Theorem delete_room_unbinds_players sid code st room st' out :
  on_delete_room sid code st = Done st' out →
  is_host sid st = true →
  rooms st !! code = Some room →
  NoDup (entry_ids (heap st) (players st)) →
  ∀ e p, e ∈ players st' → p ∈ room_players (heap st) room →
    Player.id <$> heap st !! player e.2 ≠ Some (Player.id p).
Proof.
  unfold on_delete_room. intros Hstep Hhost Hroom Hnodup.
  rewrite Hhost, Hroom in Hstep. injection Hstep as <- _. simpl.
  by apply foldl_drop_entry_unbinds.
Qed.

Lemma delete_room_unbinds_players_witness :
  ("alice", mkPlayerData 0%nat "ABC123")
    ∈ foldl (drop_entry (heap session_state)) (players session_state)
        (room_players (heap session_state) room_xyz)
  ∧ Player.mk "dan" "Dan" 2 false "dan" ∈ room_players (heap session_state) room_xyz
  ∧ Player.id <$> heap session_state !! 0%nat ≠ Some "dan".
Proof.
  assert (Hleft : ("alice", mkPlayerData 0%nat "ABC123")
    ∈ foldl (drop_entry (heap session_state)) (players session_state)
        (room_players (heap session_state) room_xyz)).
  { vm_compute. apply list_elem_of_here. }
  assert (Hdan : Player.mk "dan" "Dan" 2 false "dan"
                 ∈ room_players (heap session_state) room_xyz).
  { vm_compute. apply list_elem_of_further, list_elem_of_here. }
  split; [exact Hleft|]. split; [exact Hdan|].
  refine (delete_room_unbinds_players "alice" "XYZ789" session_state room_xyz
    (mkState (delete "XYZ789" (rooms session_state))
       (foldl (drop_entry (heap session_state)) (players session_state)
          (room_players (heap session_state) room_xyz))
       (heap session_state))
    [to_room "XYZ789" room_deleted] _ _ _ _
    ("alice", mkPlayerData 0%nat "ABC123") (Player.mk "dan" "Dan" 2 false "dan")
    Hleft Hdan).
  - vm_compute. reflexivity.
  - vm_compute. reflexivity.
  - vm_compute. reflexivity.
  - vm_compute. repeat constructor; rewrite ?elem_of_cons, ?elem_of_nil;
      intros Hin; repeat destruct Hin as [Hin|Hin]; discriminate || assumption.
Defined.

(** ** Looking a room up *)

(** X24 — [get-room] follows the registry: right after a [create-room],
    with the code that was acknowledged, it answers with the new room,
    which has no players; right after a [delete-room] that a host sent for
    a code, it answers "Room not found" for that code.  In both cases it
    leaves the state as it is. *)
Theorem get_room_after b c st st' out asker :
  handle b c st = Done st' out →
  (∀ sid teamCount hostName now draws code,
     c = create_room sid teamCount hostName now draws →
     out = [ack sid (created code)] →
     on_get_room asker code st'
     = Done st' [ack asker
                   (found (mkSnapshot (Room.new code teamCount hostName now) []))])
  ∧ (∀ host code,
       c = delete_room host code → is_host host st = true →
       on_get_room asker code st' = Done st' [ack asker (failure "Room not found")]).
Proof.
  intros Hstep. split.
  - intros sid tc hn now draws code -> ->. simpl in Hstep.
    apply on_create_room_Done in Hstep as (code' & _ & -> & [= <-]).
    unfold on_get_room. simpl. by rewrite lookup_insert_eq.
  - intros host code -> Hhost. simpl in Hstep. unfold on_delete_room in Hstep.
    rewrite Hhost in Hstep. unfold on_get_room.
    destruct (rooms st !! code) as [room|] eqn:Hroom.
    + injection Hstep as <- _. simpl. by rewrite lookup_delete_eq.
    + injection Hstep as <- _. by rewrite Hroom.
Qed.

Lemma get_room_after_witness :
  on_get_room "bob" "XYZ789"
    (mkState (delete "XYZ789" (rooms session_state))
       (foldl (drop_entry (heap session_state)) (players session_state)
          (room_players (heap session_state) room_xyz))
       (heap session_state))
  = Done
      (mkState (delete "XYZ789" (rooms session_state))
         (foldl (drop_entry (heap session_state)) (players session_state)
            (room_players (heap session_state) room_xyz))
         (heap session_state))
      [ack "bob" (failure "Room not found")].
Proof.
  refine (proj2 (get_room_after Backend (delete_room "alice" "XYZ789") session_state
    (mkState (delete "XYZ789" (rooms session_state))
       (foldl (drop_entry (heap session_state)) (players session_state)
          (room_players (heap session_state) room_xyz))
       (heap session_state))
    [to_room "XYZ789" room_deleted] "bob" _) "alice" "XYZ789" eq_refl _).
  - vm_compute. reflexivity.
  - vm_compute. reflexivity.
Defined.

(** ** Sweeping twice *)

Section Sweeps.

Lemma state_eq (st1 st2 : State) :
  rooms st1 = rooms st2 → players st1 = players st2 → heap st1 = heap st2 →
  st1 = st2.
Proof. destruct st1, st2. simpl. by intros -> -> ->. Qed.

Lemma expired_max t1 t2 room :
  expired (Z.max t1 t2) room = expired t1 room || expired t2 room.
Proof.
  unfold expired. destruct (bool_decide (List.length _ = 0%nat)).
  - rewrite !andb_true_r. repeat case_bool_decide; try done; lia.
  - by rewrite !andb_false_r.
Qed.

End Sweeps.

(** X25 — two sweeps in a row remove what one sweep at the later of the
    two times removes; so a sweep repeated at the same time, or at an
    earlier one, removes nothing more. *)
Theorem cleanup_twice t1 t2 st :
  cleanup t2 (cleanup t1 st) = cleanup (Z.max t1 t2) st.
Proof.
  apply state_eq; [|done|done].
  apply map_eq. intros code. rewrite !cleanup_lookup.
  destruct (rooms st !! code) as [room|]; [|done].
  rewrite expired_max. destruct (expired t1 room); [done|].
  simpl. done.
Qed.

(** ** The team counter of the start page *)

(** X26 — whatever buttons are clicked, the team count that the start
    page holds, and sends with [create-room], is between 2 and 8. *)
Theorem teamCount_in_range clicks : 2 ≤ teamCount_after clicks ≤ 8.
Proof.
  unfold teamCount_after.
  assert (Hfold : ∀ n, 2 ≤ n ≤ 8 → 2 ≤ foldl setTeamCount n clicks ≤ 8).
  { induction clicks as [|c clicks IH]; intros n Hn; simpl; [done|].
    apply IH. destruct c; simpl; case_bool_decide; lia. }
  apply Hfold. lia.
Qed.

(** ** What is sent *)

Ltac in_out H :=
  repeat match type of H with
  | _ ∈ _ :: _ => apply elem_of_cons in H as [H|H]; [try discriminate H|]
  | _ ∈ [] => by apply elem_of_nil in H
  end.

(** X27 — what a command sends shows the state it leaves.  A room state
    sent to a room is that room as the registry has it after the command,
    with its players as they are then; a [buzzer-pressed] event sent to a
    room is the winner recorded in that room; the player sent to a
    connection by [join-room] is the player the directory binds that
    connection to. *)
Theorem messages_reflect_state b c st st' out :
  handle b c st = Done st' out →
  (∀ code s, to_room code (room_state s) ∈ out →
     rooms st' !! code = Some (snap_room s)
     ∧ snap_players s = room_players (heap st') (snap_room s))
  ∧ (∀ code e, to_room code (buzzer_pressed e) ∈ out →
       ∃ r', rooms st' !! code = Some r' ∧ Room.firstBuzzer r' = Some e)
  ∧ (∀ sid p, to_socket sid (player_joined p) ∈ out →
       ∃ d, map_get sid (players st') = Some d ∧ heap st' !! player d = Some p).
Proof.
  destruct c as [sid tc hn now draws | sid rc pn ih ma | sid rc pid now | sid rc
                | sid rc | sid | sid rc | now]; simpl.
  - intros (c & _ & -> & ->)%on_create_room_Done.
    split; [|split]; intros ? ? Hin; in_out Hin.
  - unfold on_join_room. destruct (rooms st !! rc) as [room|] eqn:Hrc.
    + destruct (find_player _ _ _) as [[l p]|] eqn:Hfind.
      * apply find_player_Some in Hfind as (_ & Hl & _).
        intros [= <- <-]. simpl. split; [|split]; intros ? ? Hin; in_out Hin.
        -- by injection Hin as -> ->.
        -- injection Hin as -> ->. eexists. split; [apply map_get_set_eq|]. simpl.
           apply list_lookup_insert_eq. by eapply lookup_lt_Some.
      * destruct (assignPlayerToTeam _ _ _) as [team|]; [|done].
        intros [= <- <-]. simpl. split; [|split]; intros ? ? Hin; in_out Hin.
        -- injection Hin as -> ->. simpl. by rewrite lookup_insert_eq.
        -- injection Hin as -> ->. eexists. split; [apply map_get_set_eq|]. simpl.
           by rewrite list_lookup_middle.
    + intros [= <- <-]. split; [|split]; intros ? ? Hin; in_out Hin.
  - unfold on_press_buzzer. destruct (rooms st !! rc) as [room|] eqn:Hrc.
    + destruct (Room.buzzerPressed room).
      { intros [= <- <-]. split; [|split]; intros ? ? Hin; in_out Hin. }
      destruct (find_player _ _ _) as [[l p]|].
      * intros [= <- <-]. simpl.
        split; [|split]; intros ? ? Hin; destruct b; in_out Hin;
          injection Hin as -> ->; simpl; rewrite lookup_insert_eq; eauto.
      * intros [= <- <-]. split; [|split]; intros ? ? Hin; in_out Hin.
    + intros [= <- <-]. split; [|split]; intros ? ? Hin; in_out Hin.
  - unfold on_reset_buzzer. destruct (rooms st !! rc) as [room|] eqn:Hrc.
    + destruct (is_host sid st).
      * intros [= <- <-]. simpl. split; [|split]; intros ? ? Hin; in_out Hin.
        injection Hin as -> ->. simpl. by rewrite lookup_insert_eq.
      * intros [= <- <-]. split; [|split]; intros ? ? Hin; in_out Hin.
    + destruct b; intros [= <- <-]; (split; [|split]); intros ? ? Hin; in_out Hin.
  - unfold on_get_room. destruct (rooms st !! rc);
      intros [= <- <-]; (split; [|split]); intros ? ? Hin; in_out Hin.
  - unfold on_disconnect. destruct (map_get sid (players st)) as [d|].
    + intros [= <- <-]. simpl.
      destruct (rooms st !! roomCode d) as [room|] eqn:Hroom;
        (split; [|split]); intros ? ? Hin; in_out Hin.
      by injection Hin as -> ->.
    + intros [= <- <-]. split; [|split]; intros ? ? Hin; in_out Hin.
  - unfold on_delete_room. destruct (is_host sid st).
    + destruct (rooms st !! rc) as [room|];
        intros [= <- <-]; (split; [|split]); intros ? ? Hin; in_out Hin.
    + intros [= <- <-]. split; [|split]; intros ? ? Hin; in_out Hin.
  - intros [= <- <-]. split; [|split]; intros ? ? Hin; in_out Hin.
Qed.

Lemma messages_reflect_state_witness :
  (∀ code s, to_room code (room_state s) ∈ rejoined_out →
     rooms rejoined !! code = Some (snap_room s)
     ∧ snap_players s = room_players (heap rejoined) (snap_room s))
  ∧ (∀ code e, to_room code (buzzer_pressed e) ∈ rejoined_out →
       ∃ r', rooms rejoined !! code = Some r' ∧ Room.firstBuzzer r' = Some e)
  ∧ (∀ sid p, to_socket sid (player_joined p) ∈ rejoined_out →
       ∃ d, map_get sid (players rejoined) = Some d
            ∧ heap rejoined !! player d = Some p).
Proof.
  refine (messages_reflect_state Backend rejoin session_state rejoined rejoined_out _).
  vm_compute. reflexivity.
Defined.

(** X28 — errors, acknowledgements and the [player-joined] message go to
    the connection that sent the command and to no other; what is sent to
    a room is a room state, a [buzzer-pressed] event or the notice of
    deletion, never an error. *)
Theorem private_messages b c st st' out m :
  handle b c st = Done st' out → m ∈ out →
  match m with
  | to_socket sid e =>
      sender c = Some sid ∧ ((∃ msg, e = error msg) ∨ (∃ p, e = player_joined p))
  | ack sid _ => sender c = Some sid
  | to_room _ e =>
      (∃ s, e = room_state s) ∨ (∃ ev, e = buzzer_pressed ev) ∨ e = room_deleted
  end.
Proof.
  destruct c as [sid tc hn now draws | sid rc pn ih ma | sid rc pid now | sid rc
                | sid rc | sid | sid rc | now]; simpl.
  - intros (c & _ & _ & ->)%on_create_room_Done Hin. in_out Hin. by subst.
  - unfold on_join_room. destruct (rooms st !! rc) as [room|].
    + destruct (find_player _ _ _) as [[l p]|].
      * intros [= _ <-] Hin. in_out Hin; subst; eauto.
      * destruct (assignPlayerToTeam _ _ _) as [team|]; [|done].
        intros [= _ <-] Hin. in_out Hin; subst; eauto.
    + intros [= _ <-] Hin. in_out Hin. subst. eauto.
  - unfold on_press_buzzer. destruct (rooms st !! rc) as [room|].
    + destruct (Room.buzzerPressed room); [intros [= _ <-] Hin; in_out Hin|].
      destruct (find_player _ _ _) as [[l p]|].
      * intros [= _ <-] Hin. destruct b; in_out Hin; subst; eauto.
      * intros [= _ <-] Hin. in_out Hin.
    + intros [= _ <-] Hin. in_out Hin.
  - unfold on_reset_buzzer. destruct (rooms st !! rc) as [room|].
    + destruct (is_host sid st); intros [= _ <-] Hin; in_out Hin; subst; eauto.
    + destruct b; intros [= _ <-] Hin; in_out Hin; subst; eauto.
  - unfold on_get_room. destruct (rooms st !! rc);
      intros [= _ <-] Hin; in_out Hin; by subst.
  - unfold on_disconnect. destruct (map_get sid (players st)) as [d|].
    + intros [= _ <-]. destruct (rooms st !! roomCode d);
        intros Hin; in_out Hin; subst; eauto.
    + intros [= _ <-] Hin. in_out Hin.
  - unfold on_delete_room. destruct (is_host sid st).
    + destruct (rooms st !! rc) as [room|];
        intros [= _ <-] Hin; in_out Hin; subst; eauto.
    + intros [= _ <-] Hin. in_out Hin. subst. eauto.
  - intros [= _ <-] Hin. in_out Hin.
Qed.

Lemma private_messages_witness :
  sender (reset_buzzer "dan" "XYZ789") = Some "dan"
  ∧ ((∃ msg, error "Only the host can reset the buzzer" = error msg)
     ∨ (∃ p, error "Only the host can reset the buzzer" = player_joined p)).
Proof.
  refine (private_messages Backend (reset_buzzer "dan" "XYZ789") session_state
    session_state [to_socket "dan" (error "Only the host can reset the buzzer")]
    (to_socket "dan" (error "Only the host can reset the buzzer")) _ _).
  - vm_compute. reflexivity.
  - apply list_elem_of_here.
Defined.

